(** * NuPIC network-API prediction demo: a shallow embedding

    The development embeds [examples/network/network_api_demo_prediction.py]:
    the module-level parameter dictionaries, [createEncoder],
    [createNetwork] and the driving loop [runNetwork] with its
    prediction-selection step.

    Conventions of the embedding.
    - Python floats are IEEE binary64 numbers.  The selection step is
      embedded twice: on binary64 numbers (module [Binary64], over Rocq's
      primitive floats), with NaN, the infinities and rounding as the
      script meets them, and on exact rationals [Q] (module [Selection]),
      which the loop is written on.  Statements that quantify over every
      probability list are made on [Binary64]; the rational model serves
      the evaluations on concrete numbers, which come out the same in
      binary64, and the statements that do not depend on the outcome of a
      comparison.
    - Python exceptions are modelled by the [result] type; code that runs
      against mutable objects (the network, the [random] module, the csv
      writer) is written in a state-and-exception monad whose state survives
      a raised exception, as Python's heap does.
    - The NuPIC engine, the encoders and the [random] module are libraries
      that the script only calls; they appear as interfaces. *)

From Stdlib Require Import ZArith QArith Qround Lia.
From Stdlib Require Import Floats.PrimFloat Floats.SpecFloat Floats.FloatOps
  Floats.FloatAxioms.
From stdpp Require Import gmap strings list fin_maps.

(* Decimal literals such as 0.9 are read as the nearest binary64 number, as
   Python reads them. *)
#[local] Set Warnings "-inexact-float".

(** ** Python values, exceptions and built-ins *)

Module Py.

(** The exceptions the script can meet, by class. [Exception] stands for
    any other class raised inside library code, named by its class. *)
Inductive exn : Type :=
| IndexError
| ValueError
| KeyError (key : string)
| Exception (name : string).

Definition exnName (e : exn) : string :=
  match e with
  | IndexError => "IndexError"
  | ValueError => "ValueError"
  | KeyError _ => "KeyError"
  | Exception name => name
  end.

Inductive result (A : Type) : Type :=
| Return (a : A)
| Raise (e : exn).
Arguments Return {A} a.
Arguments Raise {A} e.

#[global] Instance result_ret : MRet result := @Return.
#[global] Instance result_bind : MBind result :=
  fun A B f m => match m with Return a => f a | Raise e => Raise e end.

Definition isReturn {A} (r : result A) : bool :=
  match r with Return _ => true | Raise _ => false end.

(** [len(l)] *)
Definition len {A} (l : list A) : Z := Z.of_nat (length l).

(** [xrange(n)] *)
Definition xrange (n : Z) : list Z := Z.of_nat <$> seq 0 (Z.to_nat n).

(** [l[i]]: a negative index counts from the end, an index out of range
    raises [IndexError]. *)
Definition getitem {A} (l : list A) (i : Z) : result A :=
  let j := (if i <? 0 then i + len l else i)%Z in
  if (j <? 0)%Z then Raise IndexError
  else match l !! Z.to_nat j with
       | Some a => Return a
       | None => Raise IndexError
       end.

(** [x < y] on exact rationals.  It is the comparison of two floats that
    are numbers; NaN and the infinities are not rationals, and the
    comparisons that involve them are those of [Binary64] below. *)
Definition Qltb (x y : Q) : bool := negb (Qle_bool y x).

(** [max(l)]: raises [ValueError] on an empty sequence; otherwise scans
    left to right and replaces the running maximum by an item only when the
    item is strictly greater. *)
Definition max (l : list Q) : result Q :=
  match l with
  | [] => Raise ValueError
  | x :: xs => Return (fold_left (fun m y => if Qltb m y then y else m) xs x)
  end.

(** [random.randint(a, b)] given the next output [u] of [random.random()],
    a float in the half-open interval from 0 to 1.  Python 2.7 computes
    [randrange(a, b+1)]: the width of the range is [b + 1 - a]; an empty
    range raises [ValueError]; otherwise the result is
    [a + int(u * width)].  The product is exact here, whereas Python rounds
    it to binary64: for a draw within one rounding of a multiple of
    [1 / width] the index Python computes can be the next one.  Nothing
    below states which draws lead to which index except in the evaluations
    on the draws 0, 0.2, 0.25, 0.5 and 0.9 with two or three values, where
    the rounded product gives the same index ([Binary64.randint_of]
    below). *)
Definition randint_of (a b : Z) (u : Q) : result Z :=
  let width := (b + 1 - a)%Z in
  if (0 <? width)%Z then Return (a + Qfloor (u * inject_Z width))%Z
  else Raise ValueError.

End Py.
Import Py.

(** ** The prediction-selection step (lines 223-228 of the script) *)

Module Selection.

(** [epsilon = .00001] *)
Definition epsilon : Q := 0.00001.

(** The body of the list comprehension, over the indices still to visit:
    the condition [(probabilities[i] - pMax) < epsilon] is evaluated first,
    and [actualValues[i]] only when it holds. *)
Fixpoint comprehension (actualValues probabilities : list Q) (pMax : Q)
    (indices : list Z) : result (list Q) :=
  match indices with
  | [] => Return []
  | i :: rest =>
      p ← getitem probabilities i;
      if Qltb (p - pMax) epsilon then
        a ← getitem actualValues i;
        tl ← comprehension actualValues probabilities pMax rest;
        Return (a :: tl)
      else comprehension actualValues probabilities pMax rest
  end.

(** Lines 223-226: [pMax], [epsilon] and the list [candidates]. *)
Definition candidates (actualValues probabilities : list Q) : result (list Q) :=
  pMax ← Py.max probabilities;
  comprehension actualValues probabilities pMax (xrange (len actualValues)).

(** In Python 2 the variable of a list comprehension is a variable of the
    enclosing function: once the comprehension has run over [indices], the
    name [i] holds the last index visited, or its former value when there
    was none. *)
Definition leaked (i : Z) (indices : list Z) : Z := List.last indices i.

(** Line 228, given the output [u] of the random source that
    [random.randint] consumes. *)
Definition pick (cands : list Q) (u : Q) : result Q :=
  k ← randint_of 0 (len cands - 1) u;
  getitem cands k.

(** Lines 223-228 as a function of the two lists read from the classifier
    and of the draw. *)
Definition select (actualValues probabilities : list Q) (u : Q) : result Q :=
  cands ← candidates actualValues probabilities;
  pick cands u.

(** The tie set as the specification words it: the candidates whose
    probability is within [epsilon] below the maximum,
    [pMax - probabilities[i] < epsilon].  This definition follows the
    specification, not the script; it is what the script is compared
    with. *)
Definition nearMax (pMax : Q) (cp : Q * Q) : bool :=
  Qltb (pMax - snd cp) epsilon.

Definition tieSet_spec (cands probabilities : list Q) : result (list Q) :=
  pMax ← Py.max probabilities;
  Return (fst <$> filter (fun cp => nearMax pMax cp = true) (zip cands probabilities)).

End Selection.
Import Selection.

(** ** The selection step on IEEE binary64 numbers

    Python's floats are binary64 numbers.  The module [Binary64] below is
    the selection step on them, with NaN, the infinities and rounding as
    the script meets them; the statements that quantify over all
    probability lists are made on it. *)

(** The order of binary64 numbers, read on their specification
    ([SpecFloat]). *)
Module SF.

(** A spec float that is a number: a zero or a finite value. *)
Definition number (x : spec_float) : bool :=
  match x with
  | S754_zero _ | S754_finite _ _ _ => true
  | _ => false
  end.

(** The order of [SFcompare] on numbers, as a proposition. *)
Definition le (x y : spec_float) : Prop :=
  match x, y with
  | S754_zero _, S754_zero _ => True
  | S754_zero _, S754_finite s _ _ => s = false
  | S754_finite s _ _, S754_zero _ => s = true
  | S754_finite s1 m1 e1, S754_finite s2 m2 e2 =>
      match s1, s2 with
      | true, false => True
      | false, true => False
      | false, false => (e1 < e2 ∨ (e1 = e2 ∧ Zpos m1 <= Zpos m2))%Z
      | true, true => (e2 < e1 ∨ (e1 = e2 ∧ Zpos m2 <= Zpos m1))%Z
      end
  | _, _ => False
  end.

(** [r] is a zero, a finite value or an infinity of sign [sx]. *)
Definition signed (sx : bool) (r : spec_float) : Prop :=
  match r with
  | S754_zero s | S754_infinity s | S754_finite s _ _ => s = sx
  | S754_nan => False
  end.

End SF.

Module Binary64.

(** [epsilon = .00001], the binary64 number nearest to it. *)
Definition epsilon : float := 0.00001%float.

(** [(p - pMax) < epsilon], the test of line 226. *)
Definition codeTest (p pMax : float) : bool :=
  PrimFloat.ltb (PrimFloat.sub p pMax) epsilon.

(** [(pMax - p) < epsilon], the test of the specification. *)
Definition nearMaxTest (p pMax : float) : bool :=
  PrimFloat.ltb (PrimFloat.sub pMax p) epsilon.

(** [max(l)] on floats: raises [ValueError] on an empty sequence; an item
    replaces the running maximum when [item > maximum], and a comparison
    with NaN is false. *)
Definition max (l : list float) : result float :=
  match l with
  | [] => Raise ValueError
  | x :: xs =>
      Return (fold_left (fun m y => if PrimFloat.ltb m y then y else m) xs x)
  end.

(** The list comprehension of lines 225-226 on floats. *)
Fixpoint comprehension (actualValues probabilities : list float)
    (pMax : float) (indices : list Z) : result (list float) :=
  match indices with
  | [] => Return []
  | i :: rest =>
      p ← getitem probabilities i;
      if codeTest p pMax then
        a ← getitem actualValues i;
        tl ← comprehension actualValues probabilities pMax rest;
        Return (a :: tl)
      else comprehension actualValues probabilities pMax rest
  end.

(** Lines 223-226 on floats. *)
Definition candidates (actualValues probabilities : list float)
    : result (list float) :=
  pMax ← max probabilities;
  comprehension actualValues probabilities pMax (xrange (len actualValues)).

(** Lines 223-228 on floats.  [randint a b] is the outcome of
    [random.randint(a, b)] in the state the generator is in: the step
    calls it once, on the bounds [0] and [len(candidates) - 1]. *)
Definition select (randint : Z → Z → result Z)
    (actualValues probabilities : list float) : result float :=
  cands ← candidates actualValues probabilities;
  k ← randint 0%Z (len cands - 1)%Z;
  getitem cands k.

(** [float(n)]: the binary64 number nearest to the integer [n]. *)
Definition of_Z (n : Z) : float :=
  SF2Prim (binary_normalize prec emax n 0 false).

(** [int(x)] on a float that is a number: its integer part, towards
    zero. *)
Definition int (x : float) : Z :=
  match Prim2SF x with
  | S754_finite s m e => cond_Zopp s (Z.shiftl (Zpos m) e)
  | _ => 0%Z
  end.

(** [random.randint(a, b)] on the float [u] that [random.random()]
    returns, as [Py.randint_of] but with the product [u * width] rounded
    to binary64 before [int] cuts it. *)
Definition randint_of (a b : Z) (u : float) : result Z :=
  let width := (b + 1 - a)%Z in
  if (0 <? width)%Z then Return (a + int (PrimFloat.mul u (of_Z width)))%Z
  else Raise ValueError.

(** What the [random] module documents of [randint(a, b)]: on a range
    that is not empty it returns an integer [k] with [a <= k <= b]. *)
Definition randint_in_range (randint : Z → Z → result Z) : Prop :=
  ∀ a b, (a <= b)%Z → ∃ k, randint a b = Return k ∧ (a <= k <= b)%Z.

(** A float that is neither NaN nor an infinity. *)
Definition finite (x : float) : Prop := PrimFloat.is_finite x = true.

(** The order of finite floats. *)
Definition fle (x y : float) : Prop := SF.le (Prim2SF x) (Prim2SF y).

End Binary64.


(** ** The libraries the script calls *)

(** The part of [nupic.engine.Network] that [runNetwork] uses.
    [hasRegion] decides whether [network.regions[name]] finds a region;
    [run] is [network.run(n)], which mutates the network and may raise;
    [getOutputData net region output] is
    [network.regions[region].getOutputData(output)], as a list. *)
Class NetworkAPI (Net : Type) : Type := {
  hasRegion : Net → string → bool;
  run : Net → Z → Net * result ();
  getOutputData : Net → string → string → result (list Q)
}.

(** The generator behind the [random] module: [random g] is the next output
    of [random.random()] with the generator's next state. *)
Class RandomSource (G : Type) : Type := {
  random : G → Q * G;
  random_unit : ∀ g, (0 <= (random g).1)%Q ∧ ((random g).1 < 1)%Q
}.

(** ** The driving loop [runNetwork] *)

Module Run.

(** A row handed to [writer.writerow]: [(i, consumption, prediction)]. *)
Definition Row : Type := Z * Q * Q.

(** The objects [runNetwork] works on: the network, the generator of the
    [random] module and the rows the csv writer has received, oldest first.
    [runCalls] is a ghost counter of the calls of [network.run]. *)
Record World (Net G : Type) : Type := mkWorld {
  network : Net;
  generator : G;
  rows : list Row;
  runCalls : nat
}.
Arguments mkWorld {Net G}.
Arguments network {Net G}.
Arguments generator {Net G}.
Arguments rows {Net G}.
Arguments runCalls {Net G}.

(** What one tick reads from the network: the outcome of [network.run(1)]
    and the three outputs read afterwards. *)
Record Observation : Type := mkObservation {
  obsRun : result ();
  obsSourceOut : result (list Q);
  obsActualValues : result (list Q);
  obsProbabilities : result (list Q)
}.

(** The two classifier outputs of an observation. *)
Definition classifierOutputs (o : Observation)
    : result (list Q) * result (list Q) :=
  (obsActualValues o, obsProbabilities o).

(** What lines 215-226 compute from what a tick reads, the loop variable
    being [i] on entry: the value of [i] after the comprehension, the
    consumption value and the candidate list, or the first exception
    met. *)
Definition readings (i : Z) (o : Observation) : result (Z * Q * list Q) :=
  obsRun o;;
  sourceOut ← obsSourceOut o;
  consumption ← getitem sourceOut 0;
  actualValues ← obsActualValues o;
  probabilities ← obsProbabilities o;
  cands ← candidates actualValues probabilities;
  Return (leaked i (xrange (len actualValues)), consumption, cands).

Section Loop.
Context {Net G : Type} `{NetworkAPI Net} `{RandomSource G}.

(** Computations over the world that may raise; the world at the point of
    the exception is kept. *)
Definition M (A : Type) : Type := World Net G → World Net G * result A.

#[local] Instance M_ret : MRet M := fun A a w => (w, Return a).
#[local] Instance M_bind : MBind M := fun A B f m w =>
  match m w with
  | (w', Return a) => f a w'
  | (w', Raise e) => (w', Raise e)
  end.

Definition lift {A} (r : result A) : M A := fun w => (w, r).

(** [network.regions[name]]: the handle of a region is its name. *)
Definition region (name : string) : M string := fun w =>
  (w, if hasRegion (network w) name then Return name else Raise (KeyError name)).

(** [network.run(1)] *)
Definition network_run (n : Z) : M () := fun w =>
  let '(net', r) := run (network w) n in
  (mkWorld net' (generator w) (rows w) (S (runCalls w)), r).

(** [reg.getOutputData(output)] *)
Definition outputData (reg output : string) : M (list Q) := fun w =>
  (w, getOutputData (network w) reg output).

(** [random.randint(a, b)]: the generator advances only when the range is
    not empty. *)
Definition randint (a b : Z) : M Z := fun w =>
  if (0 <? b + 1 - a)%Z then
    let '(u, g') := random (generator w) in
    (mkWorld (network w) g' (rows w) (runCalls w), randint_of a b u)
  else (w, Raise ValueError).

(** [writer.writerow(row)] *)
Definition writerow (row : Row) : M () := fun w =>
  (mkWorld (network w) (generator w) (rows w ++ [row]) (runCalls w), Return ()).

(** The body of the [for] loop, lines 214-230.  The comprehension of line
    225 reuses the name [i] of the loop variable, so the row of line 230
    carries the last index of the comprehension. *)
Definition tick (sensorRegion classiferRegion : string) (i : Z) : M () :=
  network_run 1;;
  sourceOut ← outputData sensorRegion "sourceOut";
  consumption ← lift (getitem sourceOut 0);
  actualValues ← outputData classiferRegion "actualValues";
  probabilities ← outputData classiferRegion "probabilities";
  cands ← lift (candidates actualValues probabilities);
  let i := leaked i (xrange (len actualValues)) in
  k ← randint 0 (len cands - 1);
  prediction ← lift (getitem cands k);
  writerow (i, consumption, prediction).

(** [for x in l: body(x)] *)
Fixpoint for_each {A} (l : list A) (body : A → M ()) : M () :=
  match l with
  | [] => mret ()
  | x :: xs => body x;; for_each xs body
  end.

(** The loop of lines 213-230 for a record count [numRecords]. *)
Definition runLoop (sensorRegion classiferRegion : string) (numRecords : Z) : M () :=
  for_each (xrange numRecords) (tick sensorRegion classiferRegion).

(** [runNetwork] with the module constant [_NUM_RECORDS] as a parameter.
    The local [prevPredictedColumns] is never read and is left out. *)
Definition runNetworkFor (numRecords : Z) : M () :=
  sensorRegion ← region "sensor";
  spatialPoolerRegion ← region "spatialPoolerRegion";
  temporalPoolerRegion ← region "temporalPoolerRegion";
  classiferRegion ← region "SDRClassifierRegion";
  runLoop sensorRegion classiferRegion numRecords.

Definition _NUM_RECORDS : Z := 2000.

Definition runNetwork : M () := runNetworkFor _NUM_RECORDS.

(** What the next [n] ticks read from the network. *)
Fixpoint observe (sensorRegion classiferRegion : string) (n : nat) (net : Net)
    : list Observation :=
  match n with
  | O => []
  | S k =>
      let '(net', r) := run net 1 in
      mkObservation r
        (getOutputData net' sensorRegion "sourceOut")
        (getOutputData net' classiferRegion "actualValues")
        (getOutputData net' classiferRegion "probabilities")
      :: observe sensorRegion classiferRegion k net'
  end.

(** The next [n] outputs of the generator. *)
Fixpoint draws (n : nat) (g : G) : list Q :=
  match n with
  | O => []
  | S k => let '(u, g') := random g in u :: draws k g'
  end.

(** The generator after [n] outputs have been taken from it. *)
Fixpoint advance (n : nat) (g : G) : G :=
  match n with
  | O => g
  | S k => advance k (random g).2
  end.

End Loop.
End Run.
Import Run.

(** ** The module-level dictionaries and [createNetwork] *)

Module Engine.

(** The values the parameter dictionaries hold. *)
Inductive pyval : Type :=
| PInt (z : Z)
| PFloat (q : Q)
| PStr (s : string)
| PBool (b : bool).

(** The encoders [createEncoder] builds, as the constructor calls that
    build them. *)
Inductive FieldEncoder : Type :=
| ScalarEncoder (w : Z) (minval maxval : Q) (n : Z) (name : string) (clipInput : bool)
| DateEncoder (timeOfDay : Z * Q) (name : string).

(** A [MultiEncoder] with the encoders added to it by [addEncoder], in
    order. *)
Record Encoder : Type := MultiEncoder {
  encoders : list (string * FieldEncoder)
}.

(** A region of the network: its node type, the parameters it was created
    with (the dictionary that the JSON text given to [addRegion] denotes),
    the parameters set later with [setParameter], and the two attributes
    that [createNetwork] sets on the sensor. *)
Record Region : Type := mkRegion {
  nodeType : string;
  nodeParams : gmap string pyval;
  parameters : gmap string pyval;
  encoder : option Encoder;
  dataSource : option string
}.

Record Link : Type := mkLink {
  srcName : string;
  destName : string;
  linkType : string;
  linkParams : string;
  srcOutput : string;
  destInput : string
}.

(** Modelled from the spec: the class [nupic.engine.Network], which is not
    among the sources.  It owns the regions by name and the links in the
    order they were added; [addRegion] fails with [DuplicateNameError] when
    the name is present, [link] fails with [UnknownRegionError] when an
    endpoint names no region (section 4.1 of the specification).  The
    other checks of the engine (the ports of a region, the widths of two
    linked ports, the parameters of a region) depend on the region classes,
    which are not among the sources either, and are not modelled: the
    script's calls are taken to pass them. *)
Record Network : Type := mkNetwork {
  regions : gmap string Region;
  links : list Link
}.

(** The mutable module-level dictionaries, by the name bound to each. *)
Record Module : Type := mkModule {
  SP_PARAMS : gmap string pyval;
  TP_PARAMS : gmap string pyval;
  CL_PARAMS : gmap string pyval
}.

Definition _VERBOSITY : Z := 0.

(** The dictionaries as the module body creates them, lines 53-98. *)
Definition initial_SP_PARAMS : gmap string pyval :=
  list_to_map [
    ("spVerbosity", PInt _VERBOSITY);
    ("spatialImp", PStr "cpp");
    ("globalInhibition", PInt 1);
    ("columnCount", PInt 2048);
    ("inputWidth", PInt 0);
    ("numActiveColumnsPerInhArea", PInt 40);
    ("seed", PInt 1956);
    ("potentialPct", PFloat 0.8);
    ("synPermConnected", PFloat 0.1);
    ("synPermActiveInc", PFloat 0.0001);
    ("synPermInactiveDec", PFloat 0.0005);
    ("maxBoost", PFloat 1.0)
  ].

Definition initial_TP_PARAMS : gmap string pyval :=
  list_to_map [
    ("verbosity", PInt _VERBOSITY);
    ("columnCount", PInt 2048);
    ("cellsPerColumn", PInt 32);
    ("inputWidth", PInt 2048);
    ("seed", PInt 1960);
    ("temporalImp", PStr "cpp");
    ("newSynapseCount", PInt 20);
    ("maxSynapsesPerSegment", PInt 32);
    ("maxSegmentsPerCell", PInt 128);
    ("initialPerm", PFloat 0.21);
    ("permanenceInc", PFloat 0.1);
    ("permanenceDec", PFloat 0.1);
    ("globalDecay", PFloat 0.0);
    ("maxAge", PInt 0);
    ("minThreshold", PInt 9);
    ("activationThreshold", PInt 12);
    ("outputType", PStr "normal");
    ("pamLength", PInt 3)
  ].

Definition initial_CL_PARAMS : gmap string pyval :=
  list_to_map [
    ("alpha", PFloat 0.005);
    ("steps", PStr "1");
    ("implementation", PStr "py");
    ("verbosity", PInt _VERBOSITY)
  ].

Definition initialModule : Module :=
  mkModule initial_SP_PARAMS initial_TP_PARAMS initial_CL_PARAMS.

(** [createEncoder()] *)
Definition createEncoder : Encoder :=
  let consumption_encoder := ScalarEncoder 21 0.0 100.0 50 "consumption" true in
  let time_encoder := DateEncoder (21%Z, 9.5%Q) "timestamp_timeOfDay" in
  MultiEncoder [("consumption", consumption_encoder); ("timestamp", time_encoder)].

(** What [createNetwork] works on: the module's dictionaries and the
    network under construction. *)
Record Build : Type := mkBuild {
  globals : Module;
  network : Network
}.

Definition B (A : Type) : Type := Build → Build * result A.

#[local] Instance B_ret : MRet B := fun A a s => (s, Return a).
#[local] Instance B_bind : MBind B := fun A B f m s =>
  match m s with
  | (s', Return a) => f a s'
  | (s', Raise e) => (s', Raise e)
  end.

Definition liftB {A} (r : result A) : B A := fun s => (s, r).

Definition setNetwork (net : Network) : B () := fun s =>
  (mkBuild (globals s) net, Return ()).

Definition setRegion (name : string) (r : Region) : B () := fun s =>
  (mkBuild (globals s)
     (mkNetwork (<[name := r]> (regions (network s))) (links (network s))),
   Return ()).

(** [network.regions[name]] *)
Definition getRegion (name : string) : B Region := fun s =>
  (s, match regions (network s) !! name with
      | Some r => Return r
      | None => Raise (KeyError name)
      end).

(** [network.addRegion(name, nodeType, nodeParams)]; the handle returned is
    the region's name. *)
Definition addRegion (name nodeType : string) (nodeParams : gmap string pyval)
    : B string := fun s =>
  match regions (network s) !! name with
  | Some _ => (s, Raise (Exception "DuplicateNameError"))
  | None => ((setRegion name (mkRegion nodeType nodeParams ∅ None None) s).1,
             Return name)
  end.

(** The empty string: the link parameters of every call of [link], and
    the default of its optional [srcOutput] and [destInput]. *)
Definition emptyStr : string := EmptyString.

(** [network.link(src, dest, linkType, linkParams, srcOutput=, destInput=)]:
    of the engine's checks only the one on the region names is modelled;
    the port names are recorded as given. *)
Definition link (src dest linkType linkParams srcOutput destInput : string)
    : B () := fun s =>
  match regions (network s) !! src, regions (network s) !! dest with
  | Some _, Some _ =>
      (mkBuild (globals s)
         (mkNetwork (regions (network s))
            (links (network s) ++
             [mkLink src dest linkType linkParams srcOutput destInput])),
       Return ())
  | _, _ => (s, Raise (Exception "UnknownRegionError"))
  end.

(** [region.setParameter(name, value)] *)
Definition setParameter (reg name : string) (value : pyval) : B () :=
  r ← getRegion reg;
  setRegion reg (mkRegion (nodeType r) (nodeParams r)
                   (<[name := value]> (parameters r)) (encoder r) (dataSource r)).

(** [sensor.encoder = enc] on the object behind region [reg] *)
Definition setEncoder (reg : string) (enc : Encoder) : B () :=
  r ← getRegion reg;
  setRegion reg (mkRegion (nodeType r) (nodeParams r) (parameters r)
                   (Some enc) (dataSource r)).

(** [sensor.dataSource = ds] *)
Definition setDataSource (reg : string) (ds : string) : B () :=
  r ← getRegion reg;
  setRegion reg (mkRegion (nodeType r) (nodeParams r) (parameters r)
                   (encoder r) (Some ds)).

(** [sensor.encoder] *)
Definition getEncoder (reg : string) : B Encoder :=
  r ← getRegion reg;
  liftB (match encoder r with
         | Some enc => Return enc
         | None => Raise (Exception "AttributeError")
         end).

(** [SP_PARAMS[key] = value] *)
Definition set_SP_PARAMS (key : string) (value : pyval) : B () := fun s =>
  (mkBuild (mkModule (<[key := value]> (SP_PARAMS (globals s)))
                     (TP_PARAMS (globals s)) (CL_PARAMS (globals s)))
           (network s),
   Return ()).

(** Reading a module-level dictionary for [json.dumps]. *)
Definition readGlobals {A} (f : Module → A) : B A := fun s =>
  (s, Return (f (globals s))).

(** The network under construction, for the final [return network]. *)
Definition getNetwork : B Network := fun s => (s, Return (network s)).

Section CreateNetwork.

(** [getWidth] of the encoders library, which is not among the sources. *)
Variable getWidth : Encoder → Z.

(** [createNetwork(dataSource)], lines 116-197.  A data source is named by
    its stream identifier. *)
Definition createNetwork (ds : string) : B Network :=
  setNetwork (mkNetwork ∅ []);;
  addRegion "sensor" "py.RecordSensor" {["verbosity" := PInt _VERBOSITY]};;
  setEncoder "sensor" createEncoder;;
  setDataSource "sensor" ds;;
  enc ← getEncoder "sensor";
  set_SP_PARAMS "inputWidth" (PInt (getWidth enc));;
  sp ← readGlobals SP_PARAMS;
  spatialPoolerRegion ← addRegion "spatialPoolerRegion" "py.SPRegion" sp;
  link "sensor" "spatialPoolerRegion" "UniformLink" emptyStr emptyStr emptyStr;;
  link "sensor" "spatialPoolerRegion" "UniformLink" emptyStr "resetOut" "resetIn";;
  link "spatialPoolerRegion" "sensor" "UniformLink" emptyStr
       "spatialTopDownOut" "spatialTopDownIn";;
  link "spatialPoolerRegion" "sensor" "UniformLink" emptyStr
       "temporalTopDownOut" "temporalTopDownIn";;
  setParameter spatialPoolerRegion "learningMode" (PBool true);;
  setParameter spatialPoolerRegion "anomalyMode" (PBool false);;
  tp ← readGlobals TP_PARAMS;
  temporalPoolerRegion ← addRegion "temporalPoolerRegion" "py.TPRegion" tp;
  link "spatialPoolerRegion" "temporalPoolerRegion" "UniformLink" emptyStr emptyStr emptyStr;;
  link "temporalPoolerRegion" "spatialPoolerRegion" "UniformLink" emptyStr
       "topDownOut" "topDownIn";;
  setParameter temporalPoolerRegion "topDownMode" (PBool true);;
  setParameter temporalPoolerRegion "learningMode" (PBool true);;
  setParameter temporalPoolerRegion "inferenceMode" (PBool true);;
  setParameter temporalPoolerRegion "anomalyMode" (PBool true);;
  cl ← readGlobals CL_PARAMS;
  classifier ← addRegion "SDRClassifierRegion" "py.SDRClassifierRegion" cl;
  link "temporalPoolerRegion" "SDRClassifierRegion" "UniformLink" emptyStr
       "bottomUpOut" "bottomUpIn";;
  link "sensor" "SDRClassifierRegion" "UniformLink" emptyStr "sourceOut" "categoryIn";;
  link "temporalPoolerRegion" "SDRClassifierRegion" "UniformLink" emptyStr
       "predictedActiveCells" "predictedActiveCells";;
  link "sensor" "SDRClassifierRegion" "UniformLink" emptyStr
       "sequenceIdOut" "sequenceIdIn";;
  setParameter classifier "inferenceMode" (PBool true);;
  setParameter classifier "learningMode" (PBool true);;
  getNetwork.

End CreateNetwork.

(** A network built by [createNetwork] as [runNetwork] uses it:
    [network.regions[name]] finds the regions registered by [addRegion];
    [run] and [getOutputData] are the engine's, which is not among the
    sources. *)
Definition engineAPI (engine_run : Network → Z → Network * result ())
    (engine_getOutputData : Network → string → string → result (list Q))
    : NetworkAPI Network := {|
  hasRegion net name := bool_decide (is_Some (regions net !! name));
  run := engine_run;
  getOutputData := engine_getOutputData
|}.

End Engine.

(** ** Recorded runs

    Two small implementations of the interfaces, used to evaluate the loop
    on concrete inputs: a network that replays recorded observations and a
    generator that replays recorded outputs. *)

Module Replay.

(** The network shows [current] and moves to the next pending observation
    at each [run]; running past the recording raises. *)
Record Net : Type := mkNet {
  current : Observation;
  pending : list Observation
}.

Definition blank : Observation :=
  mkObservation (Return ()) (Return []) (Return []) (Return []).

Definition start (recording : list Observation) : Net := mkNet blank recording.

Definition regionNames : list string :=
  ["sensor"; "spatialPoolerRegion"; "temporalPoolerRegion"; "SDRClassifierRegion"].

#[global] Instance net_api : NetworkAPI Net := {|
  hasRegion _ name := bool_decide (name ∈ regionNames);
  run net _ :=
    match pending net with
    | [] => (net, Raise (Exception "StopIteration"))
    | o :: rest => (mkNet o rest, obsRun o)
    end;
  getOutputData net reg output :=
    if bool_decide (reg = "sensor" ∧ output = "sourceOut")
    then obsSourceOut (current net)
    else if bool_decide (reg = "SDRClassifierRegion" ∧ output = "actualValues")
    then obsActualValues (current net)
    else if bool_decide (reg = "SDRClassifierRegion" ∧ output = "probabilities")
    then obsProbabilities (current net)
    else Raise (Exception "RuntimeError")
|}.

(** A successful tick that reads the given values. *)
Definition reads (sourceOut actualValues probabilities : list Q) : Observation :=
  mkObservation (Return ()) (Return sourceOut) (Return actualValues)
    (Return probabilities).

(** A tick whose [network.run(1)] raises [e]. *)
Definition raises (e : exn) : Observation :=
  mkObservation (Raise e) (Return []) (Return []) (Return []).

(** The generator replays a tape; a recorded value outside the unit
    interval, or the end of the tape, reads as 0. *)
Definition Tape : Type := list Q.

Definition unitClamp (u : Q) : Q :=
  if Qle_bool 0 u && Qltb u 1 then u else 0%Q.

Definition tape_random (t : Tape) : Q * Tape :=
  match t with
  | [] => (0%Q, [])
  | u :: t' => (unitClamp u, t')
  end.

#[global] Instance tape_source : RandomSource Tape.
Proof.
  refine {| random := tape_random |}.
  assert (Hz : (0 <= 0)%Q ∧ (0 < 1)%Q) by (split; [apply Qle_refl | reflexivity]).
  intros [|u t]; simpl; [exact Hz|].
  unfold unitClamp, Qltb.
  destruct (Qle_bool 0 u) eqn:H0; simpl; [|exact Hz].
  destruct (Qle_bool 1 u) eqn:H1; simpl; [exact Hz|].
  split; [now apply Qle_bool_iff|].
  apply Qnot_le_lt. intros Hle. apply Qle_bool_iff in Hle. congruence.
Defined.

End Replay.

(** * Properties *)

(** ** Facts about the Python built-ins *)

Lemma Qltb_lt (x y : Q) : Qltb x y = true ↔ (x < y)%Q.
Proof.
  unfold Qltb. rewrite negb_true_iff. split.
  - intros Hb. apply Qnot_le_lt. intros Hle.
    apply Qle_bool_iff in Hle. congruence.
  - intros Hlt. destruct (Qle_bool y x) eqn:Hb; [|reflexivity].
    apply Qle_bool_iff in Hb. exfalso. exact (Qlt_not_le _ _ Hlt Hb).
Qed.

Lemma Qltb_ge (x y : Q) : Qltb x y = false ↔ (y <= x)%Q.
Proof.
  unfold Qltb. rewrite negb_false_iff. apply Qle_bool_iff.
Qed.

(** The running maximum of [max] never decreases and dominates every item
    scanned. *)
Lemma max_scan_upper (xs : list Q) :
  ∀ m, (m <= fold_left (fun m y => if Qltb m y then y else m) xs m)%Q ∧
       ∀ p, p ∈ xs → (p <= fold_left (fun m y => if Qltb m y then y else m) xs m)%Q.
Proof.
  induction xs as [|x xs IH]; intros m; simpl.
  - split; [apply Qle_refl|]. intros p Hp. inversion Hp.
  - destruct (Qltb m x) eqn:Hmx.
    + destruct (IH x) as [Hx Hall]. apply Qltb_lt in Hmx. split.
      * apply Qle_trans with x; [now apply Qlt_le_weak | exact Hx].
      * intros p Hp. apply elem_of_cons in Hp as [-> | Hp]; auto.
    + destruct (IH m) as [Hm Hall]. apply Qltb_ge in Hmx. split; [exact Hm|].
      intros p Hp. apply elem_of_cons in Hp as [-> | Hp]; auto.
      now apply Qle_trans with m.
Qed.

Lemma max_upper (l : list Q) (m : Q) :
  Py.max l = Return m → ∀ p, p ∈ l → (p <= m)%Q.
Proof.
  destruct l as [|x xs]; simpl; [discriminate|].
  intros [= <-] p Hp. destruct (max_scan_upper xs x) as [Hx Hall].
  apply elem_of_cons in Hp as [-> | Hp]; auto.
Qed.

Lemma max_scan_elem (xs : list Q) :
  ∀ m, fold_left (fun m y => if Qltb m y then y else m) xs m ∈ m :: xs.
Proof.
  induction xs as [|x xs IH]; intros m; simpl.
  - apply list_elem_of_here.
  - destruct (Qltb m x).
    + apply list_elem_of_further, IH.
    + specialize (IH m). apply elem_of_cons in IH as [-> | Hin].
      * apply list_elem_of_here.
      * now do 2 apply list_elem_of_further.
Qed.

Lemma max_elem (l : list Q) (m : Q) : Py.max l = Return m → m ∈ l.
Proof.
  destruct l as [|x xs]; simpl; [discriminate|].
  intros [= <-]. apply max_scan_elem.
Qed.

Lemma max_returns (l : list Q) : l ≠ [] → ∃ m, Py.max l = Return m.
Proof. destruct l; [congruence|]. intros _. eexists. reflexivity. Qed.

Lemma getitem_of_nat {A} (l : list A) (i : nat) :
  getitem l (Z.of_nat i) =
  match l !! i with Some a => Return a | None => Raise IndexError end.
Proof.
  unfold getitem.
  destruct (Z.of_nat i <? 0)%Z eqn:Hneg; [apply Z.ltb_lt in Hneg; lia|].
  rewrite Hneg, Nat2Z.id. reflexivity.
Qed.

(** [random.randint] on a range that is not empty returns an integer of the
    range, whatever the generator's output. *)
Lemma randint_of_range (a b : Z) (u : Q) :
  (a <= b)%Z → (0 <= u)%Q → (u < 1)%Q →
  ∃ k, randint_of a b u = Return k ∧ (a <= k <= b)%Z.
Proof.
  intros Hab Hu0 Hu1. unfold randint_of.
  assert (Hw : (0 < b + 1 - a)%Z) by lia.
  destruct (0 <? b + 1 - a)%Z eqn:Hpos; [|apply Z.ltb_ge in Hpos; lia].
  eexists. split; [reflexivity|].
  set (w := (b + 1 - a)%Z) in *.
  assert (Hw0 : (0 < inject_Z w)%Q)
    by (change 0%Q with (inject_Z 0); rewrite <- Zlt_Qlt; exact Hw).
  assert (Hlo : (0 <= Qfloor (u * inject_Z w))%Z).
  { change 0%Z with (Qfloor (inject_Z 0)) at 1. apply Qfloor_resp_le.
    apply Qmult_le_0_compat; [exact Hu0 | now apply Qlt_le_weak]. }
  assert (Hhi : (Qfloor (u * inject_Z w) < w)%Z).
  { rewrite Zlt_Qlt. apply Qle_lt_trans with (u * inject_Z w)%Q.
    - apply Qfloor_le.
    - rewrite <- (Qmult_1_l (inject_Z w)) at 2.
      apply Qmult_lt_compat_r; assumption. }
  lia.
Qed.

(** ** Facts about the selection step *)

(** A probability that does not exceed [pMax] passes the script's test. *)
Lemma code_test_below (p pMax : Q) :
  (p <= pMax)%Q → Qltb (p - pMax) epsilon = true.
Proof.
  intros Hle. apply Qltb_lt. apply Qle_lt_trans with (pMax - pMax)%Q.
  - apply Qplus_le_compat; [exact Hle | apply Qle_refl].
  - unfold Qminus. rewrite Qplus_opp_r. reflexivity.
Qed.

(** When no probability exceeds [pMax], the comprehension keeps the value
    at every index it visits. *)
Lemma comprehension_all (actualValues probabilities : list Q) (pMax : Q) :
  (∀ p, p ∈ probabilities → (p <= pMax)%Q) →
  ∀ n a, a + n ≤ length actualValues → a + n ≤ length probabilities →
  comprehension actualValues probabilities pMax (Z.of_nat <$> seq a n)
  = Return (take n (drop a actualValues)).
Proof.
  intros Hmax n. induction n as [|n IH]; intros a Hav Hpr.
  - reflexivity.
  - change (seq a (S n)) with (a :: seq (S a) n). rewrite fmap_cons.
    cbn [comprehension]. rewrite !getitem_of_nat.
    destruct (probabilities !! a) as [p|] eqn:Hp;
      [|apply lookup_ge_None in Hp; lia].
    cbn [mbind result_bind]. rewrite code_test_below
      by (apply Hmax; eapply list_elem_of_lookup_2; eassumption).
    destruct (actualValues !! a) as [v|] eqn:Hv;
      [|apply lookup_ge_None in Hv; lia].
    rewrite (IH (S a)) by lia. cbn [mbind result_bind].
    rewrite (drop_S _ _ _ Hv). reflexivity.
Qed.

Lemma xrange_len {A} (l : list A) : xrange (len l) = Z.of_nat <$> seq 0 (length l).
Proof. unfold xrange, len. now rewrite Nat2Z.id. Qed.

Lemma candidates_all (actualValues probabilities : list Q) :
  length actualValues ≤ length probabilities → probabilities ≠ [] →
  candidates actualValues probabilities = Return actualValues.
Proof.
  intros Hlen Hne. unfold candidates.
  destruct (max_returns _ Hne) as [pMax HpMax]. rewrite HpMax. simpl.
  rewrite xrange_len, (comprehension_all _ _ _ (max_upper _ _ HpMax)) by lia.
  now rewrite drop_0, firstn_all.
Qed.

(** The concrete comparisons used below come out the same in binary64 as
    in exact arithmetic: 0.5 and 0.2 pass the script's test against their
    maxima and fail the specification's; 0.79999 against 0.8 passes the
    script's test and fails the specification's (the binary64 gap is
    1.0000000000065512e-05); 0.799995 against 0.8 passes both. *)
Lemma binary64_agrees_on_examples :
  Binary64.codeTest 0.5 0.9 = true ∧
  Binary64.nearMaxTest 0.5 0.9 = false ∧
  Binary64.codeTest 0.2 0.8 = true ∧
  Binary64.nearMaxTest 0.2 0.8 = false ∧
  Binary64.codeTest 0.79999 0.8 = true ∧
  Binary64.nearMaxTest 0.79999 0.8 = false ∧
  Binary64.codeTest 0.799995 0.8 = true ∧
  Binary64.nearMaxTest 0.799995 0.8 = true ∧
  Binary64.nearMaxTest 0.9 0.9 = true ∧
  Binary64.nearMaxTest 0.8 0.8 = true.
Proof. repeat split; vm_compute; reflexivity. Qed.

(** The indices that [random.randint] computes on the draws used in the
    evaluations below are the same with the product rounded to binary64 as
    with the exact product.  The two can differ: for the draw
    6004799503160661 / 2^53 and three values the exact product is
    2 - 2^-53, of integer part 1, and the rounded product is 2; both
    indices are within the bounds. *)
Lemma binary64_randint_agrees_on_examples :
  (∀ width, width ∈ [1; 2; 3]%Z →
     Forall (fun draw : float * Q =>
               Binary64.randint_of 0 (width - 1) draw.1
               = randint_of 0 (width - 1) draw.2)
       [(0%float, 0%Q); (0.2%float, 0.2%Q); (0.25%float, 0.25%Q);
        (0.5%float, 0.5%Q); (0.9%float, 0.9%Q)]) ∧
  randint_of 0 2 (6004799503160661 # 9007199254740992) = Return 1%Z ∧
  Binary64.randint_of 0 2 (SF2Prim (S754_finite false 6004799503160661 (-53)))
  = Return 2%Z.
Proof.
  split; [|split; vm_compute; reflexivity].
  intros width Hw.
  repeat (apply elem_of_cons in Hw as [-> | Hw];
          [repeat (apply Forall_cons; split; [vm_compute; reflexivity|]);
           apply Forall_nil_2|]).
  inversion Hw.
Qed.

(** ** Facts about binary64 numbers *)

(** The order [SF.le] is the one the comparisons of [SpecFloat] decide, and
    the difference of two numbers in that order is never positive. *)
Module SFFacts.
Import SF.

Ltac order_fin :=
  solve [ reflexivity | discriminate | tauto | lia
        | split; intros; first [reflexivity | discriminate | tauto | lia | congruence] ].

Lemma SFleb_le (x y : spec_float) :
  number x = true → number y = true → (SFleb x y = true ↔ le x y).
Proof.
  destruct x as [sx| | |sx mx ex], y as [sy| | |sy my ey]; try discriminate;
    intros _ _; unfold SFleb; cbn [SFcompare le].
  - order_fin.
  - destruct sy; order_fin.
  - destruct sx; order_fin.
  - change (Pos.compare_cont Eq mx my) with (Pos.compare mx my).
    destruct sx, sy; try order_fin;
      destruct (Z.compare_spec ex ey); try order_fin;
      destruct (Pos.compare_spec mx my); cbn; order_fin.
Qed.

Lemma SFltb_false_le (x y : spec_float) :
  number x = true → number y = true → SFltb x y = false → le y x.
Proof.
  destruct x as [sx| | |sx mx ex], y as [sy| | |sy my ey]; try discriminate;
    intros _ _; unfold SFltb; cbn [SFcompare le].
  - order_fin.
  - destruct sy; order_fin.
  - destruct sx; order_fin.
  - change (Pos.compare_cont Eq mx my) with (Pos.compare mx my).
    destruct sx, sy; try order_fin;
      destruct (Z.compare_spec ex ey); try order_fin;
      destruct (Pos.compare_spec mx my); cbn; order_fin.
Qed.

Lemma SFltb_true_le (x y : spec_float) :
  number x = true → number y = true → SFltb x y = true → le x y.
Proof.
  intros Hx Hy Hlt. apply SFleb_le; [assumption..|].
  unfold SFltb in Hlt. unfold SFleb. destruct (SFcompare x y) as [[]|]; congruence.
Qed.

Lemma SFle_refl (x : spec_float) : number x = true → le x x.
Proof. destruct x as [| | |[] m e]; try discriminate; cbn; intros _; lia || tauto. Qed.

Lemma SFle_trans (x y z : spec_float) : le x y → le y z → le x z.
Proof.
  destruct x as [sx| | |sx mx ex], y as [sy| | |sy my ey],
           z as [sz| | |sz mz ez]; cbn; try tauto;
    repeat match goal with s : bool |- _ => destruct s end;
    try tauto; try congruence; try lia.
Qed.


(** *** Canonical mantissas *)

Lemma digits2_pos_bounds (m : positive) :
  (2 ^ (Zpos (digits2_pos m) - 1) <= Zpos m < 2 ^ Zpos (digits2_pos m))%Z.
Proof.
  induction m as [m IH|m IH|]; cbn [digits2_pos].
  - rewrite Pos2Z.inj_succ, (Pos2Z.inj_xI m).
    replace (Z.succ (Zpos (digits2_pos m)) - 1)%Z
      with (Z.succ (Zpos (digits2_pos m) - 1)) by lia.
    rewrite !Z.pow_succ_r by lia. lia.
  - rewrite Pos2Z.inj_succ, (Pos2Z.inj_xO m).
    replace (Z.succ (Zpos (digits2_pos m)) - 1)%Z
      with (Z.succ (Zpos (digits2_pos m) - 1)) by lia.
    rewrite !Z.pow_succ_r by lia. lia.
  - cbn. lia.
Qed.

(** A valid binary64 mantissa has at most 53 digits, and exactly 53 above
    the least exponent. *)
Lemma bounded_digits (m : positive) (e : Z) :
  bounded prec emax m e = true →
  (Zpos (digits2_pos m) <= 53 ∧ -1074 <= e ∧
   (e = -1074 ∨ Zpos (digits2_pos m) = 53))%Z.
Proof.
  unfold bounded, canonical_mantissa, fexp, SpecFloat.emin, prec, emax.
  intros Hb. apply andb_prop in Hb as [Hc _]. apply Z.eqb_eq in Hc. lia.
Qed.

Lemma shl_align_value (m : positive) (e e' : Z) :
  (e' <= e)%Z → Zpos (fst (shl_align m e e')) = (Zpos m * 2 ^ (e - e'))%Z.
Proof.
  intros Hle. unfold shl_align.
  destruct (e' - e)%Z as [|d|d] eqn:Hd; cbn [fst].
  - replace (e - e')%Z with 0%Z by lia. cbn. lia.
  - lia.
  - replace (e - e')%Z with (Zpos d) by lia.
    change (Pos.iter xO m d) with (shift_pos d m).
    rewrite shift_pos_correct.
    change (Z.pow_pos 2 d) with (2 ^ Zpos d)%Z. lia.
Qed.

(** *** The sign of a rounded result *)

Lemma iter_pos_invariant {A} (P : A → Prop) (f : A → A) :
  (∀ x, P x → P (f x)) → ∀ n x, P x → P (SpecFloat.iter_pos f n x).
Proof.
  intros Hf n. induction n as [n IH|n IH|]; intros x Hx; cbn [SpecFloat.iter_pos]; auto.
Qed.

Lemma shr_1_nonneg (mrs : shr_record) :
  (0 <= shr_m mrs)%Z → (0 <= shr_m (shr_1 mrs))%Z.
Proof.
  destruct mrs as [m r t]. cbn [shr_m shr_1].
  destruct m as [|[p|p|]|[p|p|]]; cbn [shr_m]; lia.
Qed.

Lemma shr_fexp_nonneg (m e : Z) (l : location) :
  (0 <= m)%Z → (0 <= shr_m (fst (shr_fexp prec emax m e l)))%Z.
Proof.
  intros Hm. unfold shr_fexp, shr.
  assert (H0 : (0 <= shr_m (shr_record_of_loc m l))%Z)
    by (destruct l as [|[]]; exact Hm).
  destruct (_ - e)%Z; cbn [fst]; try exact H0.
  now apply iter_pos_invariant; [apply shr_1_nonneg|].
Qed.

Lemma round_nearest_even_nonneg (m : Z) (l : location) :
  (0 <= m)%Z → (0 <= round_nearest_even m l)%Z.
Proof.
  intros Hm. unfold round_nearest_even.
  destruct l as [|[]]; try lia. destruct (Z.even m); lia.
Qed.

Lemma binary_round_aux_signed (sx : bool) (mx ex : Z) (lx : location) :
  (0 <= mx)%Z → signed sx (binary_round_aux prec emax sx mx ex lx).
Proof.
  intros Hm. unfold binary_round_aux.
  pose proof (shr_fexp_nonneg mx ex lx Hm) as H1.
  destruct (shr_fexp prec emax mx ex lx) as [mrs' e']. cbn [fst] in H1.
  pose proof (shr_fexp_nonneg _ e' loc_Exact
                (round_nearest_even_nonneg _ (loc_of_shr_record mrs') H1)) as H2.
  destruct (shr_fexp prec emax _ e' loc_Exact) as [mrs'' e'']. cbn [fst] in H2.
  destruct (shr_m mrs'') as [|p|p]; [reflexivity| |lia].
  destruct (e'' <=? _)%Z; reflexivity.
Qed.

Lemma binary_round_signed (sx : bool) (mx : positive) (ex : Z) :
  signed sx (binary_round prec emax sx mx ex).
Proof.
  unfold binary_round. destruct (shl_align _ _ _) as [mz ez].
  apply binary_round_aux_signed. lia.
Qed.

Lemma signed_true_ltb (r : spec_float) (m : positive) (e : Z) :
  signed true r → SFltb r (S754_finite false m e) = true.
Proof.
  destruct r as [s|s| |s m' e']; cbn; try tauto; intros ->; reflexivity.
Qed.

(** *** A difference that cannot be positive is below any positive number *)

Lemma aligned_le (mx my : positive) (ex ey : Z) :
  bounded prec emax mx ex = true → bounded prec emax my ey = true →
  (ex < ey ∨ (ex = ey ∧ Zpos mx <= Zpos my))%Z →
  (Zpos (fst (shl_align mx ex (Z.min ex ey)))
   <= Zpos (fst (shl_align my ey (Z.min ex ey))))%Z.
Proof.
  intros Hbx Hby Hle. rewrite !shl_align_value by lia.
  apply bounded_digits in Hbx as (Hdx & Hex & _).
  apply bounded_digits in Hby as (Hdy & Hey & Hny).
  destruct Hle as [Hlt | [-> Hm]].
  - replace (Z.min ex ey) with ex by lia.
    replace (ex - ex)%Z with 0%Z by lia. rewrite Z.pow_0_r, Z.mul_1_r.
    destruct Hny as [-> | Hdy53]; [lia|].
    pose proof (digits2_pos_bounds mx) as [_ Hmx].
    pose proof (digits2_pos_bounds my) as [Hmy _]. rewrite Hdy53 in Hmy.
    assert (H53 : (2 ^ Zpos (digits2_pos mx) <= 2 ^ 53)%Z)
      by (apply Z.pow_le_mono_r; lia).
    assert (H2 : (2 ^ 1 <= 2 ^ (ey - ex))%Z)
      by (apply Z.pow_le_mono_r; lia).
    change (2 ^ (53 - 1))%Z with 4503599627370496%Z in Hmy.
    change (2 ^ 53)%Z with 9007199254740992%Z in H53.
    change (2 ^ 1)%Z with 2%Z in H2.
    nia.
  - replace (Z.min ey ey) with ey by lia.
    replace (ey - ey)%Z with 0%Z by lia. rewrite Z.pow_0_r. lia.
Qed.

Lemma sub_le_ltb (x y : spec_float) (m : positive) (e : Z) :
  number x = true → number y = true →
  valid_binary x = true → valid_binary y = true →
  le x y → SFltb (SFsub prec emax x y) (S754_finite false m e) = true.
Proof.
  destruct x as [sx| | |sx mx ex], y as [sy| | |sy my ey]; try discriminate;
    intros _ _ Hvx Hvy; cbn [le SFsub valid_binary] in *.
  - intros _. destruct sx, sy; reflexivity.
  - intros ->. reflexivity.
  - intros ->. reflexivity.
  - intros Hle.
    assert (Hdiff :
      (cond_Zopp sx (Zpos (fst (shl_align mx ex (Z.min ex ey))))
       - cond_Zopp sy (Zpos (fst (shl_align my ey (Z.min ex ey)))) <= 0)%Z).
    { destruct sx, sy; cbn [cond_Zopp]; [| |tauto|].
      - assert (Hle' : (ey < ex ∨ (ey = ex ∧ Zpos my <= Zpos mx))%Z) by lia.
        pose proof (aligned_le my mx ey ex Hvy Hvx Hle') as Ha.
        rewrite (Z.min_comm ey ex) in Ha. lia.
      - lia.
      - pose proof (aligned_le mx my ex ey Hvx Hvy Hle). lia. }
    unfold binary_normalize.
    destruct (_ - _)%Z as [|p|p]; [reflexivity | lia |].
    apply signed_true_ltb, binary_round_signed.
Qed.

End SFFacts.

(** The selection step on finite floats. *)
Module Binary64Facts.
Import Binary64.

Lemma finite_number (x : float) :
  finite x → SF.number (Prim2SF x) = true.
Proof.
  unfold finite, PrimFloat.is_finite, Prim2SF. intros Hf.
  apply negb_true_iff, orb_false_iff in Hf as [Hnan Hinf].
  rewrite Hnan, Hinf.
  destruct (is_zero x); [reflexivity|].
  destruct (Z.frexp x) as [r ex].
  destruct (shr_fexp _ _ _ _ _) as [mrs e'].
  destruct (shr_m mrs); reflexivity.
Qed.

Lemma ltb_true_fle (x y : float) :
  finite x → finite y → PrimFloat.ltb x y = true → fle x y.
Proof.
  intros Hx Hy. rewrite ltb_spec.
  apply SFFacts.SFltb_true_le; now apply finite_number.
Qed.

Lemma ltb_false_fle (x y : float) :
  finite x → finite y → PrimFloat.ltb x y = false → fle y x.
Proof.
  intros Hx Hy. rewrite ltb_spec.
  apply SFFacts.SFltb_false_le; now apply finite_number.
Qed.

(** A finite probability that does not exceed a finite [pMax] passes the
    test of line 226: the rounded difference is a zero, a negative number
    or the negative infinity. *)
Lemma codeTest_below (p pMax : float) :
  finite p → finite pMax → fle p pMax → codeTest p pMax = true.
Proof.
  intros Hp Hm Hle. unfold codeTest.
  rewrite ltb_spec, sub_spec.
  assert (Heps : Prim2SF epsilon = S754_finite false 5902958103587057 (-69))
    by (vm_compute; reflexivity).
  rewrite Heps.
  apply SFFacts.sub_le_ltb; auto using finite_number, Prim2SF_valid.
Qed.

(** On finite floats the scan of [max] ends on a finite float that no
    scanned item exceeds. *)
Lemma float_max_scan_upper (xs : list float) :
  Forall finite xs → ∀ m, finite m →
  let r := fold_left (fun m y => if PrimFloat.ltb m y then y else m) xs m in
  finite r ∧ fle m r ∧ ∀ p, p ∈ xs → fle p r.
Proof.
  induction 1 as [|x xs Hx Hxs IH]; intros m Hm; cbn [fold_left].
  - split; [exact Hm|]. split; [apply SFFacts.SFle_refl, finite_number, Hm|].
    intros p Hp. inversion Hp.
  - destruct (PrimFloat.ltb m x) eqn:Hmx.
    + destruct (IH x Hx) as (Hr & Hxr & Hall). split; [exact Hr|]. split.
      * eapply SFFacts.SFle_trans;
          [apply (ltb_true_fle _ _ Hm Hx Hmx) | exact Hxr].
      * intros p Hp. apply elem_of_cons in Hp as [-> | Hp]; auto.
    + destruct (IH m Hm) as (Hr & Hmr & Hall). split; [exact Hr|].
      split; [exact Hmr|].
      intros p Hp. apply elem_of_cons in Hp as [-> | Hp]; auto.
      eapply SFFacts.SFle_trans;
        [apply (ltb_false_fle _ _ Hm Hx Hmx) | exact Hmr].
Qed.

Lemma float_max_upper (l : list float) :
  Forall finite l → l ≠ [] →
  ∃ pMax, Binary64.max l = Return pMax ∧ finite pMax ∧
          ∀ p, p ∈ l → fle p pMax.
Proof.
  intros Hl Hne. destruct l as [|x xs]; [congruence|].
  apply Forall_cons in Hl as [Hx Hxs].
  destruct (float_max_scan_upper xs Hxs x Hx) as (Hr & Hxr & Hall).
  eexists. split; [reflexivity|]. split; [exact Hr|].
  intros p Hp. apply elem_of_cons in Hp as [-> | Hp]; auto.
Qed.

(** Every finite probability passes the test against the maximum of a list
    of finite probabilities that holds it. *)
Lemma codeTest_max (probabilities : list float) :
  Forall finite probabilities → probabilities ≠ [] →
  ∃ pMax, Binary64.max probabilities = Return pMax ∧
          ∀ p, p ∈ probabilities → codeTest p pMax = true.
Proof.
  intros Hfin Hne.
  destruct (float_max_upper _ Hfin Hne) as (pMax & HpMax & Hm & Hupper).
  exists pMax. split; [exact HpMax|]. intros p Hp.
  apply codeTest_below; [|exact Hm | exact (Hupper p Hp)].
  rewrite Forall_forall in Hfin. exact (Hfin p Hp).
Qed.

(** When every probability passes the test, the comprehension keeps the
    value at every index it visits. *)
Lemma float_comprehension_all (actualValues probabilities : list float)
    (pMax : float) :
  (∀ p, p ∈ probabilities → codeTest p pMax = true) →
  ∀ n a, a + n ≤ length actualValues → a + n ≤ length probabilities →
  comprehension actualValues probabilities pMax (Z.of_nat <$> seq a n)
  = Return (take n (drop a actualValues)).
Proof.
  intros Hpass n. induction n as [|n IH]; intros a Hav Hpr.
  - reflexivity.
  - change (seq a (S n)) with (a :: seq (S a) n). rewrite fmap_cons.
    cbn [comprehension]. rewrite !getitem_of_nat.
    destruct (probabilities !! a) as [p|] eqn:Hp;
      [|apply lookup_ge_None in Hp; lia].
    cbn [mbind result_bind].
    rewrite (Hpass p) by (eapply list_elem_of_lookup_2; eassumption).
    destruct (actualValues !! a) as [v|] eqn:Hv;
      [|apply lookup_ge_None in Hv; lia].
    rewrite (IH (S a)) by lia. cbn [mbind result_bind].
    rewrite (drop_S _ _ _ Hv). reflexivity.
Qed.

(** A comprehension that runs past the end of [probabilities] raises
    [IndexError] there, whatever the floats are. *)
Lemma float_comprehension_short (actualValues probabilities : list float)
    (pMax : float) :
  ∀ n a, a ≤ length probabilities → length probabilities < a + n →
         a + n ≤ length actualValues →
  comprehension actualValues probabilities pMax (Z.of_nat <$> seq a n)
  = Raise IndexError.
Proof.
  intros n. induction n as [|n IH]; intros a Ha Hpr Hav; [lia|].
  change (seq a (S n)) with (a :: seq (S a) n). rewrite fmap_cons.
  cbn [comprehension]. rewrite !getitem_of_nat.
  destruct (probabilities !! a) as [p|] eqn:Hp; [|reflexivity].
  cbn [mbind result_bind]. apply lookup_lt_Some in Hp.
  destruct (codeTest p pMax).
  - destruct (actualValues !! a) as [v|] eqn:Hv;
      [|apply lookup_ge_None in Hv; lia].
    rewrite (IH (S a)) by lia. reflexivity.
  - apply (IH (S a)); lia.
Qed.

Lemma float_candidates_all (actualValues probabilities : list float) :
  Forall finite probabilities → probabilities ≠ [] →
  length actualValues ≤ length probabilities →
  candidates actualValues probabilities = Return actualValues.
Proof.
  intros Hfin Hne Hlen. unfold candidates.
  destruct (codeTest_max _ Hfin Hne) as (pMax & HpMax & Hpass).
  rewrite HpMax. cbn [mbind result_bind].
  rewrite xrange_len, (float_comprehension_all _ _ _ Hpass) by lia.
  now rewrite drop_0, firstn_all.
Qed.

Lemma float_candidates_short (actualValues probabilities : list float) :
  probabilities ≠ [] → length probabilities < length actualValues →
  candidates actualValues probabilities = Raise IndexError.
Proof.
  intros Hne Hlen. unfold candidates.
  destruct probabilities as [|x xs]; [congruence|].
  cbn [Binary64.max mbind result_bind]. rewrite xrange_len.
  apply float_comprehension_short; lia.
Qed.

(** Whatever the floats, the comprehension keeps values in their order:
    what it returns is a sub-list of the values at the indices visited. *)
Lemma float_comprehension_sublist (actualValues probabilities : list float)
    (pMax : float) :
  ∀ n a cands,
  comprehension actualValues probabilities pMax (Z.of_nat <$> seq a n)
  = Return cands →
  cands `sublist_of` take n (drop a actualValues).
Proof.
  intros n. induction n as [|n IH]; intros a cands.
  - intros [= <-]. apply sublist_nil_l.
  - change (seq a (S n)) with (a :: seq (S a) n). rewrite fmap_cons.
    cbn [comprehension]. rewrite !getitem_of_nat.
    destruct (probabilities !! a) as [p|]; [|discriminate].
    cbn [mbind result_bind].
    destruct (codeTest p pMax).
    + destruct (actualValues !! a) as [v|] eqn:Hv; [|discriminate].
      cbn [mbind result_bind].
      destruct (comprehension _ _ _ _) as [tl|e] eqn:Htl; [|discriminate].
      intros [= <-]. rewrite (drop_S _ _ _ Hv). cbn [take].
      apply sublist_skip, IH, Htl.
    + intros Hrest. apply IH in Hrest.
      destruct (actualValues !! a) as [v|] eqn:Hv.
      * rewrite (drop_S _ _ _ Hv). cbn [take]. now apply sublist_cons.
      * apply lookup_ge_None in Hv.
        rewrite drop_ge in Hrest by lia. rewrite drop_ge by lia.
        now rewrite take_nil in *.
Qed.

End Binary64Facts.

(** ** The claims about the selection step *)

Local Open Scope Q_scope.

(** C1 (defect of the script). The claim: the selection step retains only
    the candidates whose probability is within [epsilon] of the maximum.
    On the lists [[10, 20]] and [[0.5, 0.9]] the script retains both
    values, although 0.5 is 0.4 below the maximum; the tie set of the
    claim is [[20]]. *)
Theorem candidates_keep_low_probability :
  candidates [10; 20] [0.5; 0.9] = Return [10; 20] ∧
  tieSet_spec [10; 20] [0.5; 0.9] = Return [20] ∧
  Py.max [0.5; 0.9] = Return 0.9 ∧
  Qltb (0.5 - 0.9) epsilon = true ∧
  Qltb (0.9 - 0.5) epsilon = false.
Proof. repeat split; vm_compute; reflexivity. Qed.

(** C2 (defect of the script). The claim: the script's test
    [probabilities[i] - pMax < epsilon] and the test
    [pMax - probabilities[i] < epsilon] of the algorithm give the same
    candidate set.  On the probabilities [[0.5, 0.9]] the script's test
    holds at index 0 and the other does not, and the two candidate lists
    differ: the script subtracts in the wrong order, the defect of C1. *)
Lemma tests_not_equivalent_counterexample :
  Py.max [0.5; 0.9] = Return 0.9 ∧
  Qltb (0.5 - 0.9) epsilon = true ∧
  Qltb (0.9 - 0.5) epsilon = false ∧
  candidates [10; 20] [0.5; 0.9] ≠ tieSet_spec [10; 20] [0.5; 0.9].
Proof.
  repeat split; try (vm_compute; reflexivity).
  vm_compute. intros Heq. discriminate Heq.
Qed.

(** C3 (defect of the script). The claim: on [[10, 20, 30]] with
    probabilities [[0.5, 0.9, 0.9]] the tie set is [{20, 30}] and the
    prediction is never 10.  The script keeps all three values, and a draw
    of [random.random()] below one third selects 10. *)
Theorem selection_picks_low_probability :
  candidates [10; 20; 30] [0.5; 0.9; 0.9] = Return [10; 20; 30] ∧
  tieSet_spec [10; 20; 30] [0.5; 0.9; 0.9] = Return [20; 30] ∧
  randint_of 0 (len [10; 20; 30] - 1) 0.25 = Return 0%Z ∧
  select [10; 20; 30] [0.5; 0.9; 0.9] 0.25 = Return 10.
Proof. repeat split; vm_compute; reflexivity. Qed.

(** C4, the claim refuted: on [[10, 20, 30]] with probabilities
    [[0.2, 0.79999, 0.8]] the list the script computes is not the set
    [{20, 30}]; it holds 10 as well. *)
Lemma boundary_tie_set_counterexample :
  ¬ ∃ cs, candidates [10; 20; 30] [0.2; 0.79999; 0.8] = Return cs ∧
          ∀ x, x ∈ cs ↔ x ∈ [20; 30].
Proof.
  intros (cs & Hcs & Hset). vm_compute in Hcs. injection Hcs as <-.
  assert (Hin : 10 ∈ [20; 30]) by (apply Hset, list_elem_of_here).
  apply elem_of_cons in Hin as [Heq | Hin]; [discriminate Heq|].
  apply elem_of_cons in Hin as [Heq | Hin]; [discriminate Heq|].
  inversion Hin.
Qed.

(** C4, amended: the boundary is decided by a strict comparison.  A gap of
    exactly 1e-5 is not within [epsilon], so for the probabilities
    [[0.2, 0.79999, 0.8]] the candidates within [epsilon] of the maximum are
    exactly [[30]]; a gap of 5e-6 is within [epsilon], so for
    [[0.2, 0.799995, 0.8]] they are exactly [[20, 30]].  In both cases the
    list the script computes contains them.  (In binary64 the first gap is
    1.0000000000065512e-05, on the same side of [epsilon].) *)
Theorem boundary_is_strict :
  Qltb (0.8 - 0.79999) epsilon = false ∧
  Qltb (0.8 - 0.799995) epsilon = true ∧
  tieSet_spec [10; 20; 30] [0.2; 0.79999; 0.8] = Return [30] ∧
  tieSet_spec [10; 20; 30] [0.2; 0.799995; 0.8] = Return [20; 30] ∧
  (∃ cs, candidates [10; 20; 30] [0.2; 0.79999; 0.8] = Return cs ∧
         [30] `sublist_of` cs) ∧
  (∃ cs, candidates [10; 20; 30] [0.2; 0.799995; 0.8] = Return cs ∧
         [20; 30] `sublist_of` cs).
Proof.
  repeat split; try (vm_compute; reflexivity).
  - exists [10; 20; 30]. split; [vm_compute; reflexivity|].
    do 2 apply sublist_cons. apply sublist_skip. constructor.
  - exists [10; 20; 30]. split; [vm_compute; reflexivity|].
    apply sublist_cons. do 2 apply sublist_skip. constructor.
Qed.

(** C6, the claim refuted: with no candidate value and one probability the
    candidate list is empty and the selection raises, but the exception is
    Python's [ValueError], not an [EmptyCandidateSetError]. *)
Lemma empty_candidates_error_counterexample :
  candidates [] [0.5] = Return [] ∧
  ∃ e, select [] [0.5] 0 = Raise e ∧ exnName e ≠ "EmptyCandidateSetError".
Proof.
  split; [vm_compute; reflexivity|].
  exists ValueError. split; [vm_compute; reflexivity|].
  simpl. intros Heq. discriminate Heq.
Qed.

(** C6, amended: if the computed candidate list is empty, the selection
    step fails with the [ValueError] that [random.randint(0, -1)] raises on
    its empty range; it returns no value and picks no default, and the
    generator is not advanced. *)
Theorem empty_candidates_raise_ValueError
    {Net G : Type} `{NetworkAPI Net} `{RandomSource G}
    (actualValues probabilities : list Q) :
  candidates actualValues probabilities = Return [] →
  (∀ u, select actualValues probabilities u = Raise ValueError) ∧
  (∀ w : World Net G, randint 0 (len (@nil Q) - 1) w = (w, Raise ValueError)).
Proof.
  intros Hempty. split.
  - intros u. unfold select. rewrite Hempty. reflexivity.
  - intros w. reflexivity.
Qed.

Lemma empty_candidates_raise_ValueError_witness :
  candidates [] [0.5] = Return [] ∧
  (∀ u, select [] [0.5] u = Raise ValueError) ∧
  (∀ w : World Replay.Net Replay.Tape,
     randint 0 (len (@nil Q) - 1) w = (w, Raise ValueError)).
Proof.
  split; [reflexivity|].
  apply (empty_candidates_raise_ValueError [] [0.5]). reflexivity.
Defined.

Local Close Scope Q_scope.

(** C9, the claim refuted: the probabilities are floats, and a NaN or two
    infinities among them make the test of line 226 false.  With
    [[nan, 0.5]] the maximum is NaN, no index passes, the candidate list is
    empty and [random.randint(0, -1)] raises [ValueError]; with
    [[0.5, nan, 0.3]] the value at the NaN is dropped; with two positive
    infinities the difference is NaN and the list is empty again.  A
    probability list shorter than the values raises [IndexError]. *)
Lemma nan_probability_counterexample :
  Binary64.max [nan; 0.5]%float = Return nan ∧
  Binary64.codeTest nan nan = false ∧
  Binary64.codeTest 0.5 nan = false ∧
  Binary64.candidates [10; 20]%float [nan; 0.5]%float = Return [] ∧
  (∀ u, Binary64.select (fun a b => randint_of a b u)
          [10; 20]%float [nan; 0.5]%float = Raise ValueError) ∧
  Binary64.candidates [10; 20; 30]%float [0.5; nan; 0.3]%float
  = Return [10; 30]%float ∧
  Binary64.codeTest infinity infinity = false ∧
  Binary64.candidates [10; 20]%float [infinity; infinity]
  = Return [] ∧
  Binary64.candidates [10; 20]%float [0.5]%float = Raise IndexError.
Proof.
  repeat split; vm_compute; reflexivity.
Qed.

(** C9, amended: when the probabilities are finite floats (no NaN, no
    infinity) and there is at least one value and no fewer probabilities
    than values, every index passes the test of line 226, the candidate
    list is the whole list of values, and [random.randint], which returns
    an integer between its bounds, gives an index of that list: the
    selection returns the value at it. *)
Theorem finite_probabilities_keep_all_values
    (randint : Z → Z → result Z) (actualValues probabilities : list float) :
  actualValues ≠ [] →
  length actualValues ≤ length probabilities →
  Forall Binary64.finite probabilities →
  Binary64.randint_in_range randint →
  (∃ pMax, Binary64.max probabilities = Return pMax ∧
     ∀ i p, probabilities !! i = Some p → Binary64.codeTest p pMax = true) ∧
  Binary64.candidates actualValues probabilities = Return actualValues ∧
  ∃ k prediction,
    randint 0%Z (len actualValues - 1)%Z = Return k ∧
    (0 <= k < len actualValues)%Z ∧
    getitem actualValues k = Return prediction ∧
    Binary64.select randint actualValues probabilities = Return prediction.
Proof.
  intros Hav Hlen Hfin Hrandint.
  assert (Hne : probabilities ≠ []).
  { intros ->. destruct actualValues; [congruence | simpl in Hlen; lia]. }
  assert (Hcs : Binary64.candidates actualValues probabilities
                = Return actualValues)
    by now apply Binary64Facts.float_candidates_all.
  split; [|split; [exact Hcs|]].
  - destruct (Binary64Facts.codeTest_max _ Hfin Hne) as (pMax & HpMax & Hpass).
    exists pMax. split; [exact HpMax|]. intros i p Hp.
    apply Hpass. eapply list_elem_of_lookup_2; eassumption.
  - assert (Hpos : (0 < len actualValues)%Z)
      by (unfold len; destruct actualValues; [congruence | simpl; lia]).
    destruct (Hrandint 0%Z (len actualValues - 1)%Z) as (k & Hk & Hrange);
      [lia|].
    assert (Hget : ∃ a, getitem actualValues k = Return a).
    { rewrite <- (Z2Nat.id k) by lia. rewrite getitem_of_nat.
      destruct (actualValues !! Z.to_nat k) as [a|] eqn:Ha; [now exists a|].
      apply lookup_ge_None in Ha. unfold len in *. lia. }
    destruct Hget as [a Ha]. exists k, a.
    split; [exact Hk|]. split; [lia|]. split; [exact Ha|].
    unfold Binary64.select. rewrite Hcs. cbn [mbind result_bind].
    rewrite Hk. exact Ha.
Qed.

Lemma finite_probabilities_keep_all_values_witness :
  Binary64.candidates [10; 20; 30]%float [0.5; 0.9; 0.9]%float
  = Return [10; 20; 30]%float ∧
  ∃ k prediction,
    randint_of 0 (len [10; 20; 30]%float - 1) 0.5%Q = Return k ∧
    (0 <= k < len [10; 20; 30]%float)%Z ∧
    getitem [10; 20; 30]%float k = Return prediction ∧
    Binary64.select (fun a b => randint_of a b 0.5%Q)
      [10; 20; 30]%float [0.5; 0.9; 0.9]%float = Return prediction.
Proof.
  apply (finite_probabilities_keep_all_values
           (fun a b => randint_of a b 0.5%Q)
           [10; 20; 30]%float [0.5; 0.9; 0.9]%float).
  - discriminate.
  - simpl. lia.
  - repeat constructor.
  - intros a b Hab. apply randint_of_range; [exact Hab | discriminate | reflexivity].
Defined.

(** ** Facts about the driving loop *)

Section LoopFacts.
Context {Net G : Type} `{NetworkAPI Net} `{RandomSource G}.
Implicit Types w : World Net G.

(** The observation a tick makes from world [w]. *)
Lemma observe_S (s c : string) (n : nat) (net : Net) :
  observe s c (S n) net =
  mkObservation (run net 1).2
    (getOutputData (run net 1).1 s "sourceOut")
    (getOutputData (run net 1).1 c "actualValues")
    (getOutputData (run net 1).1 c "probabilities")
  :: observe s c n (run net 1).1.
Proof. simpl. destruct (run net 1). reflexivity. Qed.

Lemma draws_S (n : nat) (g : G) :
  draws (S n) g = (random g).1 :: draws n (random g).2.
Proof. simpl. destruct (random g). reflexivity. Qed.

(** One tick, spelled out: the world after [network.run(1)], then the
    readings, then the draw, then the row. *)
Lemma tick_unfold (s c : string) (i : Z) w :
  tick s c i w =
  let net' := (run (network w) 1).1 in
  let o := mkObservation (run (network w) 1).2
             (getOutputData net' s "sourceOut")
             (getOutputData net' c "actualValues")
             (getOutputData net' c "probabilities") in
  let w1 := mkWorld net' (generator w) (rows w) (S (runCalls w)) in
  match readings i o with
  | Raise e => (w1, Raise e)
  | Return (i', consumption, cands) =>
      if (0 <? len cands)%Z then
        let w2 := mkWorld net' (random (generator w)).2 (rows w)
                    (S (runCalls w)) in
        match pick cands (random (generator w)).1 with
        | Raise e => (w2, Raise e)
        | Return prediction =>
            (mkWorld net' (random (generator w)).2
               (rows w ++ [(i', consumption, prediction)]) (S (runCalls w)),
             Return ())
        end
      else (w1, Raise ValueError)
  end.
Proof.
  unfold tick, readings, network_run, outputData, lift, randint, writerow, pick.
  unfold mbind, M_bind, result_bind. cbn [network generator rows runCalls fst snd].
  destruct (run (network w) 1) as [net' [[]|e]]; cbn; [|reflexivity].
  destruct (getOutputData net' s "sourceOut") as [src|e]; [|reflexivity].
  destruct (src !! Z.to_nat 0) as [consumption|]; [|reflexivity].
  destruct (getOutputData net' c "actualValues") as [av|e]; [|reflexivity].
  destruct (getOutputData net' c "probabilities") as [pr|e]; [|reflexivity].
  destruct (candidates av pr) as [cands|e]; [|reflexivity].
  unfold randint_of.
  replace (len cands - 1 + 1 - 0)%Z with (len cands) by lia.
  destruct (0 <? len cands)%Z; [|reflexivity].
  destruct (random (generator w)) as [u g']; cbn [fst snd].
  destruct (getitem cands _) as [prediction|e]; reflexivity.
Qed.


(** A tick calls [network.run] once; it appends one row when it succeeds
    and none when it raises. *)
Lemma tick_effect (s c : string) (i : Z) w w' (r : result ()) :
  tick s c i w = (w', r) →
  runCalls w' = S (runCalls w) ∧
  match r with
  | Return _ => ∃ row, rows w' = rows w ++ [row]
  | Raise _ => rows w' = rows w
  end.
Proof.
  rewrite tick_unfold. cbv zeta.
  destruct (readings _ _) as [[[i' consumption] cands]|e].
  - destruct (0 <? len cands)%Z.
    + destruct (pick cands _) as [prediction|e]; intros [= <- <-]; cbn.
      * split; [reflexivity|]. now exists (i', consumption, prediction).
      * split; reflexivity.
    + intros [= <- <-]. split; reflexivity.
  - intros [= <- <-]. split; reflexivity.
Qed.

Lemma for_each_cons {A} (x : A) (xs : list A) (body : A → M ()) w :
  for_each (x :: xs) body w =
  match body x w with
  | (w', Return _) => for_each xs body w'
  | (w', Raise e) => (w', Raise e)
  end.
Proof. reflexivity. Qed.

Lemma for_each_app {A} (xs ys : list A) (body : A → M ()) w :
  for_each (xs ++ ys) body w =
  match for_each xs body w with
  | (w', Return _) => for_each ys body w'
  | (w', Raise e) => (w', Raise e)
  end.
Proof.
  revert w. induction xs as [|x xs IH]; intros w; [reflexivity|].
  rewrite <- app_comm_cons, !for_each_cons.
  destruct (body x w) as [w' [[]|e]]; [apply IH | reflexivity].
Qed.

(** A loop that completes has written one row per index and has called
    [network.run] once per index. *)
Lemma loop_completed (s c : string) (indices : list Z) :
  ∀ w w', for_each indices (tick s c) w = (w', Return ()) →
  ∃ written, rows w' = rows w ++ written ∧
             length written = length indices ∧
             runCalls w' = runCalls w + length indices.
Proof.
  induction indices as [|i indices IH]; intros w w'.
  - intros [= <-]. exists []. rewrite app_nil_r. repeat split. simpl. lia.
  - rewrite for_each_cons. destruct (tick s c i w) as [w1 [[]|e]] eqn:Htick;
      [|discriminate].
    intros Hrest. apply tick_effect in Htick as (Hcalls & row & Hrows).
    destruct (IH _ _ Hrest) as (written & Hw & Hidx & Hc).
    exists (row :: written).
    rewrite Hw, Hrows, <- app_assoc. repeat split; simpl; lia.
Qed.

Lemma xrange_split (k m : nat) :
  xrange (Z.of_nat (k + S m)) =
  xrange (Z.of_nat k) ++ Z.of_nat k :: (Z.of_nat <$> seq (S k) m).
Proof.
  unfold xrange. rewrite !Nat2Z.id, seq_app, fmap_app. reflexivity.
Qed.

(** Over a list that is not empty the comprehension leaves the loop
    variable at the last index, whatever it was before. *)
Lemma leaked_xrange_len {A} (i : Z) (l : list A) :
  l ≠ [] → leaked i (xrange (len l)) = (len l - 1)%Z.
Proof.
  intros Hne. rewrite xrange_len. unfold leaked, len.
  destruct l as [|a l]; [congruence|].
  cbn [length]. rewrite seq_S, fmap_app. cbn [fmap list_fmap].
  rewrite last_last. lia.
Qed.

(** [random.randint] on a range that is not empty consumes one output of
    the generator and returns an integer of the range. *)
Lemma randint_returns (a b : Z) w :
  (a <= b)%Z →
  ∃ k, randint a b w
       = (mkWorld (network w) (random (generator w)).2 (rows w) (runCalls w),
          Return k) ∧
       (a <= k <= b)%Z.
Proof.
  intros Hab. unfold randint.
  destruct (0 <? b + 1 - a)%Z eqn:Hpos; [|apply Z.ltb_ge in Hpos; lia].
  destruct (random_unit (generator w)) as [Hu0 Hu1].
  destruct (randint_of_range a b _ Hab Hu0 Hu1) as (k & Hk & Hrange).
  exists k. split; [|exact Hrange].
  destruct (random (generator w)) as [u g']. cbn [fst snd] in *.
  now rewrite Hk.
Qed.

(** [runNetwork] is its loop once the four region lookups have succeeded,
    and raises [KeyError] without touching anything otherwise. *)
Lemma runNetworkFor_unfold (n : Z) w :
  runNetworkFor n w =
  if hasRegion (network w) "sensor" then
    if hasRegion (network w) "spatialPoolerRegion" then
      if hasRegion (network w) "temporalPoolerRegion" then
        if hasRegion (network w) "SDRClassifierRegion" then
          runLoop "sensor" "SDRClassifierRegion" n w
        else (w, Raise (KeyError "SDRClassifierRegion"))
      else (w, Raise (KeyError "temporalPoolerRegion"))
    else (w, Raise (KeyError "spatialPoolerRegion"))
  else (w, Raise (KeyError "sensor")).
Proof.
  unfold runNetworkFor, region, mbind, M_bind.
  repeat (destruct (hasRegion (network w) _); [|reflexivity]). reflexivity.
Qed.

Lemma runNetworkFor_completed (n : Z) w w' :
  runNetworkFor n w = (w', Return ()) →
  ∀ n', runNetworkFor n' w = runLoop "sensor" "SDRClassifierRegion" n' w.
Proof.
  intros Hrun n'. rewrite runNetworkFor_unfold in Hrun.
  rewrite runNetworkFor_unfold.
  repeat (destruct (hasRegion (network w) _); [|discriminate Hrun]).
  reflexivity.
Qed.

End LoopFacts.

(** ** The claims about the driving loop *)

(** C7: a failure inside a tick aborts the run.  If the run over the first
    [k] records completes and tick [k] then raises [e], every run over more
    than [k] records ends in [e] with the world exactly as tick [k] left
    it: no later tick is started, [network.run] has been called [k + 1]
    times, and the writer holds the rows it had plus [k] rows, those of the
    ticks before [k]; there is none for tick [k] or a later one. *)
Theorem failed_tick_aborts_run
    {Net G : Type} `{NetworkAPI Net} `{RandomSource G}
    (k m : nat) (w0 wk w' : World Net G) (e : exn) :
  runNetworkFor (Z.of_nat k) w0 = (wk, Return ()) →
  tick "sensor" "SDRClassifierRegion" (Z.of_nat k) wk = (w', Raise e) →
  runNetworkFor (Z.of_nat (k + S m)) w0 = (w', Raise e) ∧
  runCalls w' = runCalls w0 + S k ∧
  rows w' = rows wk ∧
  ∃ written, rows w' = rows w0 ++ written ∧ length written = k.
Proof.
  intros Hfirst Htick.
  pose proof (runNetworkFor_completed _ _ _ Hfirst) as Hloop.
  rewrite Hloop in Hfirst. unfold runLoop in Hfirst.
  split; [|split; [|split]].
  - rewrite Hloop. unfold runLoop.
    rewrite xrange_split, for_each_app, Hfirst, for_each_cons, Htick.
    reflexivity.
  - apply tick_effect in Htick as [Hcalls _].
    apply loop_completed in Hfirst as (written & _ & _ & Hk).
    rewrite Hcalls, Hk. unfold xrange.
    rewrite length_fmap, length_seq, Nat2Z.id. lia.
  - now apply tick_effect in Htick as [_ Hrows].
  - apply tick_effect in Htick as [_ Hrows].
    apply loop_completed in Hfirst as (written & Hw & Hidx & _).
    exists written. rewrite Hrows, Hw. split; [reflexivity|].
    rewrite Hidx. unfold xrange. now rewrite length_fmap, length_seq, Nat2Z.id.
Qed.

Lemma failed_tick_aborts_run_witness :
  let w0 : World Replay.Net Replay.Tape :=
    mkWorld (Replay.start [Replay.reads [5] [10; 20; 30] [0.5; 0.9; 0.9];
                           Replay.reads [6] [10; 20; 30] [0.5; 0.9; 0.9];
                           Replay.raises (Exception "StepError");
                           Replay.reads [7] [10; 20; 30] [0.5; 0.9; 0.9]]%Q)
            [0.5; 0.9; 0.1]%Q [] 0 in
  let wk := (runNetworkFor 2 w0).1 in
  let w' := (tick "sensor" "SDRClassifierRegion" 2 wk).1 in
  runNetworkFor 4 w0 = (w', Raise (Exception "StepError")) ∧
  runCalls w' = 3 ∧
  rows w' = [(2%Z, 5%Q, 20%Q); (2%Z, 6%Q, 30%Q)].
Proof.
  intros w0 wk w'.
  destruct (failed_tick_aborts_run 2 1 w0 wk w' (Exception "StepError"))
    as (Hrun & Hcalls & _ & _);
    [vm_compute; reflexivity | vm_compute; reflexivity |].
  split; [exact Hrun|]. split; [exact Hcalls|]. vm_compute. reflexivity.
Defined.

(** C8: the loop over a record count of 0 returns at once and leaves the
    world untouched: [network.run] is not called and no row is written;
    on a fresh writer the output is empty.  The same holds of [runNetwork]
    with that count. *)
Theorem zero_records_no_tick
    {Net G : Type} `{NetworkAPI Net} `{RandomSource G}
    (s c : string) (net : Net) (g : G) (w : World Net G) :
  runLoop s c 0 w = (w, Return ()) ∧
  (runNetworkFor 0 w).1 = w ∧
  rows (runLoop s c 0 (mkWorld net g [] 0)).1 = [] ∧
  runCalls (runLoop s c 0 (mkWorld net g [] 0)).1 = 0.
Proof.
  split; [reflexivity|]. split; [|split; reflexivity].
  rewrite runNetworkFor_unfold.
  repeat (destruct (hasRegion (network w) _); [|reflexivity]). reflexivity.
Qed.

Section TwoRuns.
Context {Net1 G1 Net2 G2 : Type}
  `{NetworkAPI Net1} `{RandomSource G1} `{NetworkAPI Net2} `{RandomSource G2}.

(** Two loops over the same indices whose networks show the same
    observations and whose generators give the same outputs end alike. *)
Lemma loops_agree (s c : string) (indices : list Z) :
  ∀ (w1 : World Net1 G1) (w2 : World Net2 G2),
  rows w1 = rows w2 →
  observe s c (length indices) (network w1)
    = observe s c (length indices) (network w2) →
  draws (length indices) (generator w1)
    = draws (length indices) (generator w2) →
  rows (for_each indices (tick s c) w1).1
    = rows (for_each indices (tick s c) w2).1 ∧
  (for_each indices (tick s c) w1).2 = (for_each indices (tick s c) w2).2.
Proof.
  induction indices as [|i indices IH]; intros w1 w2 Hrows Hobs Hdraws.
  - split; [exact Hrows | reflexivity].
  - cbn [length] in Hobs, Hdraws.
    rewrite !observe_S in Hobs. rewrite !draws_S in Hdraws.
    injection Hobs as Hr Hs Ha Hp Hobs'. injection Hdraws as Hu Hdraws'.
    rewrite !for_each_cons, !tick_unfold. cbv zeta.
    rewrite <- Hr, <- Hs, <- Ha, <- Hp.
    destruct (readings _ _) as [[[i' consumption] cands]|e];
      [|split; [exact Hrows | reflexivity]].
    destruct (0 <? len cands)%Z; [|split; [exact Hrows | reflexivity]].
    rewrite <- Hu.
    destruct (pick cands _) as [prediction|e];
      [|split; [exact Hrows | reflexivity]].
    apply IH; cbn [rows network generator]; [now rewrite Hrows | exact Hobs' | exact Hdraws'].
Qed.

End TwoRuns.

(** C5, the claim refuted: two runs that read the same candidate and
    probability vectors and use the same draw, but read different
    consumption values (5 and 7), write different rows. *)
Lemma rows_need_consumption_counterexample :
  let w1 : World Replay.Net Replay.Tape :=
    mkWorld (Replay.start [Replay.reads [5] [10; 20; 30] [0.5; 0.9; 0.9]]%Q)
            [0.5]%Q [] 0 in
  let w2 : World Replay.Net Replay.Tape :=
    mkWorld (Replay.start [Replay.reads [7] [10; 20; 30] [0.5; 0.9; 0.9]]%Q)
            [0.5]%Q [] 0 in
  classifierOutputs <$> observe "sensor" "SDRClassifierRegion" 1 (network w1)
    = classifierOutputs <$> observe "sensor" "SDRClassifierRegion" 1 (network w2) ∧
  draws 1 (generator w1) = draws 1 (generator w2) ∧
  rows (runLoop "sensor" "SDRClassifierRegion" 1 w1).1 = [(2%Z, 5%Q, 20%Q)] ∧
  rows (runLoop "sensor" "SDRClassifierRegion" 1 w2).1 = [(2%Z, 7%Q, 20%Q)] ∧
  rows (runLoop "sensor" "SDRClassifierRegion" 1 w1).1
    ≠ rows (runLoop "sensor" "SDRClassifierRegion" 1 w2).1.
Proof.
  intros w1 w2. repeat split; try (vm_compute; reflexivity).
  vm_compute. intros Heq. discriminate Heq.
Qed.

(** C5, amended: the rows are determined by what the ticks read and by the
    draws.  For two runs of the loop over the same record count that start
    with the same rows written, if at each tick the outcome of
    [network.run(1)], the sensor output that gives the consumption value
    and the candidate and probability vectors are identical, and the
    generators' outputs are identical, then the two runs write identical
    rows [(i, consumption, prediction)] and end alike. *)
Theorem rows_determined_by_readings_and_draws
    {Net1 G1 Net2 G2 : Type}
    `{NetworkAPI Net1} `{RandomSource G1} `{NetworkAPI Net2} `{RandomSource G2}
    (s c : string) (n : nat) (w1 : World Net1 G1) (w2 : World Net2 G2) :
  rows w1 = rows w2 →
  observe s c n (network w1) = observe s c n (network w2) →
  draws n (generator w1) = draws n (generator w2) →
  rows (runLoop s c (Z.of_nat n) w1).1 = rows (runLoop s c (Z.of_nat n) w2).1 ∧
  (runLoop s c (Z.of_nat n) w1).2 = (runLoop s c (Z.of_nat n) w2).2.
Proof.
  intros Hrows Hobs Hdraws. unfold runLoop, xrange. rewrite Nat2Z.id.
  apply loops_agree; rewrite ?length_fmap, ?length_seq; assumption.
Qed.

Lemma rows_determined_by_readings_and_draws_witness :
  let w1 : World Replay.Net Replay.Tape :=
    mkWorld (Replay.start [Replay.reads [5] [10; 20; 30] [0.5; 0.9; 0.9];
                           Replay.reads [6] [10; 20] [0.3; 0.7]]%Q)
            [0.5; 0.9]%Q [] 0 in
  let w2 : World Replay.Net Replay.Tape :=
    mkWorld (Replay.start [Replay.reads [5] [10; 20; 30] [0.5; 0.9; 0.9];
                           Replay.reads [6] [10; 20] [0.3; 0.7];
                           Replay.raises (Exception "StepError")]%Q)
            [0.5; 0.9; 0.2]%Q [] 0 in
  rows (runLoop "sensor" "SDRClassifierRegion" (Z.of_nat 2) w1).1
    = rows (runLoop "sensor" "SDRClassifierRegion" (Z.of_nat 2) w2).1 ∧
  (runLoop "sensor" "SDRClassifierRegion" (Z.of_nat 2) w1).2
    = (runLoop "sensor" "SDRClassifierRegion" (Z.of_nat 2) w2).2.
Proof.
  intros w1 w2.
  apply (rows_determined_by_readings_and_draws
           "sensor" "SDRClassifierRegion" 2 w1 w2);
    vm_compute; reflexivity.
Defined.

(** ** Facts about [createNetwork] *)

Module EngineFacts.
Import Engine.
#[local] Existing Instance B_bind.

Lemma bind_return {A C} (m : B A) (f : A → B C) (s s' : Build) (a : A) :
  m s = (s', Return a) → (m ≫= f) s = f a s'.
Proof. intros Hm. unfold mbind, B_bind. now rewrite Hm. Qed.

Lemma run_setNetwork (net : Network) (s : Build) :
  setNetwork net s = (mkBuild (globals s) net, Return ()).
Proof. reflexivity. Qed.

Lemma run_addRegion (name type : string) (params : gmap string pyval)
    (g : Module) (rs : gmap string Region) (ls : list Link) :
  rs !! name = None →
  addRegion name type params (mkBuild g (mkNetwork rs ls))
  = (mkBuild g
       (mkNetwork (<[name := mkRegion type params ∅ None None]> rs) ls),
     Return name).
Proof. intros Hfree. unfold addRegion. cbn. now rewrite Hfree. Qed.

Lemma run_link (src dest type params out inp : string)
    (g : Module) (rs : gmap string Region) (ls : list Link) (r1 r2 : Region) :
  rs !! src = Some r1 → rs !! dest = Some r2 →
  link src dest type params out inp (mkBuild g (mkNetwork rs ls))
  = (mkBuild g (mkNetwork rs (ls ++ [mkLink src dest type params out inp])),
     Return ()).
Proof. intros H1 H2. unfold link. cbn. now rewrite H1, H2. Qed.

Lemma run_setParameter (reg name : string) (value : pyval)
    (g : Module) (rs : gmap string Region) (ls : list Link) (r : Region) :
  rs !! reg = Some r →
  setParameter reg name value (mkBuild g (mkNetwork rs ls))
  = (mkBuild g
       (mkNetwork
          (<[reg := mkRegion (nodeType r) (nodeParams r)
                      (<[name := value]> (parameters r))
                      (encoder r) (dataSource r)]> rs) ls),
     Return ()).
Proof.
  intros Hr. unfold setParameter, getRegion, mbind, B_bind. cbn.
  now rewrite Hr.
Qed.

Lemma run_setEncoder (reg : string) (enc : Encoder)
    (g : Module) (rs : gmap string Region) (ls : list Link) (r : Region) :
  rs !! reg = Some r →
  setEncoder reg enc (mkBuild g (mkNetwork rs ls))
  = (mkBuild g
       (mkNetwork
          (<[reg := mkRegion (nodeType r) (nodeParams r) (parameters r)
                      (Some enc) (dataSource r)]> rs) ls),
     Return ()).
Proof.
  intros Hr. unfold setEncoder, getRegion, mbind, B_bind. cbn.
  now rewrite Hr.
Qed.

Lemma run_setDataSource (reg ds : string)
    (g : Module) (rs : gmap string Region) (ls : list Link) (r : Region) :
  rs !! reg = Some r →
  setDataSource reg ds (mkBuild g (mkNetwork rs ls))
  = (mkBuild g
       (mkNetwork
          (<[reg := mkRegion (nodeType r) (nodeParams r) (parameters r)
                      (encoder r) (Some ds)]> rs) ls),
     Return ()).
Proof.
  intros Hr. unfold setDataSource, getRegion, mbind, B_bind. cbn.
  now rewrite Hr.
Qed.

Lemma run_getEncoder (reg : string) (enc : Encoder)
    (g : Module) (rs : gmap string Region) (ls : list Link) (r : Region) :
  rs !! reg = Some r → encoder r = Some enc →
  getEncoder reg (mkBuild g (mkNetwork rs ls))
  = (mkBuild g (mkNetwork rs ls), Return enc).
Proof.
  intros Hr He. unfold getEncoder, getRegion, liftB, mbind, B_bind. cbn.
  now rewrite Hr, He.
Qed.

Lemma run_set_SP_PARAMS (key : string) (value : pyval)
    (sp tp cl : gmap string pyval) (net : Network) :
  set_SP_PARAMS key value (mkBuild (mkModule sp tp cl) net)
  = (mkBuild (mkModule (<[key := value]> sp) tp cl) net, Return ()).
Proof. reflexivity. Qed.

Lemma run_readGlobals {A} (f : Module → A) (s : Build) :
  readGlobals f s = (s, Return (f (globals s))).
Proof. reflexivity. Qed.

(** Looking a region up in a map written as a chain of updates. *)
Ltac lookup_region :=
  repeat first
    [ rewrite lookup_insert_eq
    | rewrite lookup_insert_ne by discriminate
    | rewrite lookup_empty ];
  reflexivity.

(** One statement of [createNetwork] on a state in explicit form. *)
Ltac step :=
  first
    [ erewrite (bind_return _ _ _ _ _ (run_setNetwork _ _))
    | erewrite (bind_return _ _ _ _ _ (run_set_SP_PARAMS _ _ _ _ _ _))
    | erewrite (bind_return _ _ _ _ _ (run_readGlobals _ _))
    | erewrite bind_return by (apply run_addRegion; lookup_region)
    | erewrite bind_return by (eapply run_link; lookup_region)
    | erewrite bind_return by (eapply run_setParameter; lookup_region)
    | erewrite bind_return by (eapply run_setEncoder; lookup_region)
    | erewrite bind_return by (eapply run_setDataSource; lookup_region)
    | erewrite bind_return by (eapply run_getEncoder; [lookup_region | reflexivity]) ];
  cbn [globals network regions links nodeType nodeParams parameters encoder
       dataSource SP_PARAMS TP_PARAMS CL_PARAMS].

(** [createNetwork] runs to its end from any state: it returns the network
    it built, and of the module's dictionaries it changes only
    [SP_PARAMS], by the one assignment to ["inputWidth"]. *)
Lemma createNetwork_run (getWidth : Encoder → Z) (ds : string)
    (sp tp cl : gmap string pyval) (net0 : Network) :
  ∃ net,
    createNetwork getWidth ds (mkBuild (mkModule sp tp cl) net0)
    = (mkBuild (mkModule (<["inputWidth" := PInt (getWidth createEncoder)]> sp)
                  tp cl) net,
       Return net) ∧
    nodeParams <$> regions net !! "spatialPoolerRegion"
    = Some (<["inputWidth" := PInt (getWidth createEncoder)]> sp).
Proof.
  unfold createNetwork.
  do 30 step.
  eexists. split; [reflexivity|].
  cbn [regions]. lookup_region.
Qed.

End EngineFacts.

(** ** The claim about [createNetwork] *)

(** C10: [createNetwork] overwrites [SP_PARAMS["inputWidth"]], which the
    module sets to 0, with the width of the sensor's encoder, and does so
    before it creates the spatial pooler region, which therefore receives
    the updated dictionary; every other key of [SP_PARAMS] and the whole
    of [TP_PARAMS] and [CL_PARAMS] are left as they were.  The function
    returns the network it built. *)
Theorem createNetwork_sets_inputWidth
    (getWidth : Engine.Encoder → Z) (ds : string) (s : Engine.Build) :
  let s' := (Engine.createNetwork getWidth ds s).1 in
  (Engine.createNetwork getWidth ds s).2 = Return (Engine.network s') ∧
  Engine.SP_PARAMS Engine.initialModule !! "inputWidth" = Some (Engine.PInt 0) ∧
  Engine.SP_PARAMS (Engine.globals s')
    = <["inputWidth" := Engine.PInt (getWidth Engine.createEncoder)]>
        (Engine.SP_PARAMS (Engine.globals s)) ∧
  delete "inputWidth" (Engine.SP_PARAMS (Engine.globals s'))
    = delete "inputWidth" (Engine.SP_PARAMS (Engine.globals s)) ∧
  Engine.TP_PARAMS (Engine.globals s') = Engine.TP_PARAMS (Engine.globals s) ∧
  Engine.CL_PARAMS (Engine.globals s') = Engine.CL_PARAMS (Engine.globals s) ∧
  Engine.nodeParams <$> Engine.regions (Engine.network s') !! "spatialPoolerRegion"
    = Some (Engine.SP_PARAMS (Engine.globals s')).
Proof.
  destruct s as [[sp tp cl] net0].
  destruct (EngineFacts.createNetwork_run getWidth ds sp tp cl net0)
    as (net & Hrun & Hsp).
  cbv zeta. rewrite Hrun.
  cbn [fst snd Engine.globals Engine.network
       Engine.SP_PARAMS Engine.TP_PARAMS Engine.CL_PARAMS].
  split; [reflexivity|]. split; [vm_compute; reflexivity|].
  split; [reflexivity|]. split; [apply delete_insert_eq|].
  split; [reflexivity|]. split; [reflexivity | exact Hsp].
Qed.

(** * Further properties of the script *)

(** ** The selection step on any input *)

Lemma getitem_elem {A} (l : list A) (k : Z) (a : A) :
  getitem l k = Return a → a ∈ l.
Proof.
  unfold getitem. destruct (_ <? 0)%Z; [discriminate|].
  destruct (l !! _) as [b|] eqn:Hb; [|discriminate].
  intros [= <-]. eapply list_elem_of_lookup_2; eassumption.
Qed.

(** When no probability exceeds [pMax], a comprehension that runs past the
    end of [probabilities] raises [IndexError] there. *)
Lemma comprehension_short (actualValues probabilities : list Q) (pMax : Q) :
  (∀ p, p ∈ probabilities → (p <= pMax)%Q) →
  ∀ n a, a ≤ length probabilities → length probabilities < a + n →
         a + n ≤ length actualValues →
  comprehension actualValues probabilities pMax (Z.of_nat <$> seq a n)
  = Raise IndexError.
Proof.
  intros Hmax n. induction n as [|n IH]; intros a Ha Hpr Hav; [lia|].
  change (seq a (S n)) with (a :: seq (S a) n). rewrite fmap_cons.
  cbn [comprehension]. rewrite !getitem_of_nat.
  destruct (probabilities !! a) as [p|] eqn:Hp; [|reflexivity].
  cbn [mbind result_bind]. rewrite code_test_below
    by (apply Hmax; eapply list_elem_of_lookup_2; eassumption).
  destruct (actualValues !! a) as [v|] eqn:Hv;
    [|apply lookup_ge_None in Hv; lia].
  apply lookup_lt_Some in Hp.
  rewrite (IH (S a)) by lia. reflexivity.
Qed.

(** X1. With fewer probabilities than values (and at least one), line 225
    indexes [probabilities] out of range: the step raises [IndexError]. *)
Theorem candidates_short_probabilities (actualValues probabilities : list Q) :
  probabilities ≠ [] → length probabilities < length actualValues →
  candidates actualValues probabilities = Raise IndexError.
Proof.
  intros Hne Hlen. unfold candidates.
  destruct (max_returns _ Hne) as [pMax HpMax]. rewrite HpMax.
  cbn [mbind result_bind]. rewrite xrange_len.
  apply comprehension_short; [exact (max_upper _ _ HpMax) | lia | lia | lia].
Qed.

Lemma candidates_short_probabilities_witness :
  candidates [10; 20]%Q [0.5]%Q = Raise IndexError.
Proof.
  apply (candidates_short_probabilities [10; 20]%Q [0.5]%Q);
    [discriminate | simpl; lia].
Defined.

(** On rationals a candidate list that is computed is the whole list of
    values. *)
Lemma candidates_returned (actualValues probabilities cands : list Q) :
  candidates actualValues probabilities = Return cands →
  probabilities ≠ [] ∧ length actualValues ≤ length probabilities ∧
  cands = actualValues.
Proof.
  intros Hret.
  assert (Hne : probabilities ≠ []).
  { intros ->. discriminate Hret. }
  destruct (Nat.le_gt_cases (length actualValues) (length probabilities))
    as [Hle | Hgt].
  - rewrite (candidates_all _ _ Hle Hne) in Hret.
    injection Hret as <-. auto.
  - unfold candidates in Hret.
    destruct (max_returns _ Hne) as [pMax HpMax]. rewrite HpMax in Hret.
    cbn [mbind result_bind] in Hret. rewrite xrange_len in Hret.
    rewrite comprehension_short in Hret;
      [discriminate Hret | exact (max_upper _ _ HpMax) | lia | lia | lia].
Qed.

(** X2. On finite probabilities (no NaN, no infinity) the candidate list is
    computed exactly when there is at least one probability and no fewer
    probabilities than values, and it is then the whole list of values:
    the filter of line 226 drops no value. *)
Theorem finite_candidates_return_iff
    (actualValues probabilities cands : list float) :
  Forall Binary64.finite probabilities →
  Binary64.candidates actualValues probabilities = Return cands ↔
  probabilities ≠ [] ∧ length actualValues ≤ length probabilities ∧
  cands = actualValues.
Proof.
  intros Hfin. split.
  - intros Hret.
    assert (Hne : probabilities ≠ []).
    { intros ->. discriminate Hret. }
    destruct (Nat.le_gt_cases (length actualValues) (length probabilities))
      as [Hle | Hgt].
    + rewrite (Binary64Facts.float_candidates_all _ _ Hfin Hne Hle) in Hret.
      injection Hret as <-. auto.
    + rewrite (Binary64Facts.float_candidates_short _ _ Hne Hgt) in Hret.
      discriminate Hret.
  - intros (Hne & Hle & ->). now apply Binary64Facts.float_candidates_all.
Qed.

Lemma finite_candidates_return_iff_witness :
  Binary64.candidates [10; 20]%float [0.3; 0.7; 0.0]%float
  = Return [10; 20]%float ↔
  [0.3; 0.7; 0.0]%float ≠ [] ∧
  length [10; 20]%float ≤ length [0.3; 0.7; 0.0]%float ∧
  [10; 20]%float = [10; 20]%float.
Proof.
  apply (finite_candidates_return_iff [10; 20]%float [0.3; 0.7; 0.0]%float
           [10; 20]%float).
  repeat constructor.
Defined.

(** X3. The prediction does not depend on the values of finite
    probabilities: two lists of finite probabilities that both let the
    step run give the same prediction in the same state of the
    generator. *)
Theorem select_ignores_probabilities
    (randint : Z → Z → result Z)
    (actualValues probabilities probabilities' : list float) :
  Forall Binary64.finite probabilities →
  Forall Binary64.finite probabilities' →
  probabilities ≠ [] → probabilities' ≠ [] →
  length actualValues ≤ length probabilities →
  length actualValues ≤ length probabilities' →
  Binary64.select randint actualValues probabilities
  = Binary64.select randint actualValues probabilities'.
Proof.
  intros Hfin Hfin' Hne Hne' Hle Hle'. unfold Binary64.select.
  now rewrite !Binary64Facts.float_candidates_all.
Qed.

Lemma select_ignores_probabilities_witness :
  Binary64.select (fun a b => randint_of a b 0.25%Q)
    [10; 20; 30]%float [0.5; 0.9; 0.9]%float
  = Binary64.select (fun a b => randint_of a b 0.25%Q)
      [10; 20; 30]%float [0.98; 0.01; 0.01]%float.
Proof.
  apply (select_ignores_probabilities (fun a b => randint_of a b 0.25%Q)
           [10; 20; 30]%float [0.5; 0.9; 0.9]%float
           [0.98; 0.01; 0.01]%float);
    [repeat constructor | repeat constructor | discriminate | discriminate
    | simpl; lia | simpl; lia].
Defined.

(** X16. Whatever the floats, NaN and the infinities included: a candidate
    list that is computed holds values of the classifier's list, in their
    order (it is a sub-list of it), there are then at least one
    probability and no fewer probabilities than values, and a prediction
    that is returned is one of the classifier's values. *)
Theorem float_candidates_sublist
    (randint : Z → Z → result Z)
    (actualValues probabilities cands : list float) :
  Binary64.candidates actualValues probabilities = Return cands →
  cands `sublist_of` actualValues ∧
  probabilities ≠ [] ∧ length actualValues ≤ length probabilities ∧
  ∀ prediction,
    Binary64.select randint actualValues probabilities = Return prediction →
    prediction ∈ actualValues.
Proof.
  intros Hret.
  assert (Hne : probabilities ≠ []).
  { intros ->. discriminate Hret. }
  assert (Hsub : cands `sublist_of` actualValues).
  { unfold Binary64.candidates in Hret.
    destruct (Binary64.max probabilities) as [pMax|e]; [|discriminate].
    cbn [mbind result_bind] in Hret. rewrite xrange_len in Hret.
    apply Binary64Facts.float_comprehension_sublist in Hret.
    now rewrite drop_0, firstn_all in Hret. }
  split; [exact Hsub|]. split; [exact Hne|]. split.
  - destruct (Nat.le_gt_cases (length actualValues) (length probabilities))
      as [Hle | Hgt]; [exact Hle|].
    rewrite (Binary64Facts.float_candidates_short _ _ Hne Hgt) in Hret.
    discriminate Hret.
  - intros prediction. unfold Binary64.select. rewrite Hret.
    cbn [mbind result_bind].
    destruct (randint _ _) as [k|e]; [|discriminate].
    cbn [mbind result_bind]. intros Hget.
    exact (elem_of_sublist _ _ _ (getitem_elem _ _ _ Hget) Hsub).
Qed.

Lemma float_candidates_sublist_witness :
  [10; 30]%float `sublist_of` [10; 20; 30]%float ∧
  [0.5; nan; 0.3]%float ≠ [] ∧
  length [10; 20; 30]%float ≤ length [0.5; nan; 0.3]%float ∧
  ∀ prediction,
    Binary64.select (fun a b => randint_of a b 0.9%Q)
      [10; 20; 30]%float [0.5; nan; 0.3]%float = Return prediction →
    prediction ∈ [10; 20; 30]%float.
Proof.
  apply (float_candidates_sublist (fun a b => randint_of a b 0.9%Q)
           [10; 20; 30]%float [0.5; nan; 0.3]%float [10; 30]%float).
  vm_compute. reflexivity.
Defined.

(** X5. Whenever the selection returns, the prediction is one of the values
    the classifier listed, whatever the draw. *)
Theorem select_returns_listed_value
    (actualValues probabilities : list Q) (u prediction : Q) :
  select actualValues probabilities u = Return prediction →
  prediction ∈ actualValues.
Proof.
  unfold select.
  destruct (candidates actualValues probabilities) as [cands|e] eqn:Hc;
    [|discriminate].
  apply candidates_returned in Hc as (_ & _ & ->).
  cbn [mbind result_bind]. unfold pick.
  destruct (randint_of _ _ _) as [k|e]; [|discriminate].
  cbn [mbind result_bind]. apply getitem_elem.
Qed.

Lemma select_returns_listed_value_witness :
  (20 : Q) ∈ [10; 20; 30]%Q.
Proof.
  apply (select_returns_listed_value [10; 20; 30]%Q [0.5; 0.9; 0.9]%Q
           0.5%Q 20%Q).
  vm_compute. reflexivity.
Defined.

(** ** The driving loop on any network *)

Section MoreLoopFacts.
Context {Net G : Type} `{NetworkAPI Net} `{RandomSource G}.
Implicit Types w : World Net G.

Lemma readings_returned (i i' : Z) (o : Observation) (consumption : Q)
    (cands : list Q) :
  readings i o = Return (i', consumption, cands) →
  ∃ sourceOut actualValues probabilities,
    obsRun o = Return () ∧
    obsSourceOut o = Return sourceOut ∧
    obsActualValues o = Return actualValues ∧
    obsProbabilities o = Return probabilities ∧
    getitem sourceOut 0 = Return consumption ∧
    candidates actualValues probabilities = Return cands ∧
    i' = leaked i (xrange (len actualValues)).
Proof.
  unfold readings.
  destruct (obsRun o) as [[]|e]; [|discriminate].
  destruct (obsSourceOut o) as [src|e]; [|discriminate].
  cbn [mbind result_bind].
  destruct (getitem src 0) as [x|e] eqn:Hx; [|discriminate].
  destruct (obsActualValues o) as [av|e]; [|discriminate].
  destruct (obsProbabilities o) as [pr|e]; [|discriminate].
  cbn [mbind result_bind].
  destruct (candidates av pr) as [cs|e] eqn:Hcs; [|discriminate].
  intros [= <- <- <-]. exists src, av, pr. repeat split; assumption.
Qed.

(** A tick that completes advances the generator by one output. *)
Lemma tick_generator (s c : string) (i : Z) w w' :
  tick s c i w = (w', Return ()) →
  generator w' = (random (generator w)).2.
Proof.
  rewrite tick_unfold. cbv zeta.
  destruct (readings _ _) as [[[i' consumption] cands]|e]; [|discriminate].
  destruct (0 <? len cands)%Z; [|discriminate].
  destruct (pick cands _) as [prediction|e]; [|discriminate].
  now intros [= <-].
Qed.

Lemma loop_generator (s c : string) (indices : list Z) :
  ∀ w w', for_each indices (tick s c) w = (w', Return ()) →
  generator w' = advance (length indices) (generator w).
Proof.
  induction indices as [|i indices IH]; intros w w'.
  - now intros [= <-].
  - rewrite for_each_cons.
    destruct (tick s c i w) as [w1 [[]|e]] eqn:Htick; [|discriminate].
    intros Hrest. rewrite (IH _ _ Hrest). cbn [length advance].
    now rewrite (tick_generator _ _ _ _ _ Htick).
Qed.

(** Whatever its outcome, a loop only appends rows, writes at most one row
    per call of [network.run], and has at most one call without a row. *)
Lemma loop_append_only (s c : string) (indices : list Z) :
  ∀ w w' (r : result ()), for_each indices (tick s c) w = (w', r) →
  ∃ written calls,
    rows w' = rows w ++ written ∧
    runCalls w' = runCalls w + calls ∧
    length written ≤ calls ∧ calls ≤ S (length written) ∧
    calls ≤ length indices.
Proof.
  induction indices as [|i indices IH]; intros w w' r.
  - intros [= <- <-]. exists [], 0. rewrite app_nil_r. simpl. repeat split; lia.
  - rewrite for_each_cons.
    destruct (tick s c i w) as [w1 [[]|e]] eqn:Htick.
    + intros Hrest. apply tick_effect in Htick as (Hcalls & row & Hrows).
      destruct (IH _ _ _ Hrest) as (written & calls & Hw & Hc & H1 & H2 & H3).
      exists (row :: written), (S calls).
      rewrite Hw, Hrows, Hc, Hcalls, <- app_assoc. simpl. repeat split; lia.
    + intros [= <- <-]. apply tick_effect in Htick as (Hcalls & Hrows).
      exists [], 1. rewrite Hrows, Hcalls, app_nil_r. simpl. repeat split; lia.
Qed.

End MoreLoopFacts.

(** X6. The first column of a row is not the record number: the comprehension
    of line 225 rebinds [i], so a tick that completes writes
    [len(actualValues) - 1] there, with the first sensor output as the
    consumption and one of the classifier's values as the prediction. *)
Theorem tick_writes_last_index
    {Net G : Type} `{NetworkAPI Net} `{RandomSource G}
    (s c : string) (i : Z) (w w' : World Net G) :
  tick s c i w = (w', Return ()) →
  ∃ sourceOut actualValues probabilities consumption prediction,
    getOutputData (network w') s "sourceOut" = Return sourceOut ∧
    getOutputData (network w') c "actualValues" = Return actualValues ∧
    getOutputData (network w') c "probabilities" = Return probabilities ∧
    getitem sourceOut 0 = Return consumption ∧
    prediction ∈ actualValues ∧
    rows w' = rows w ++ [((len actualValues - 1)%Z, consumption, prediction)].
Proof.
  rewrite tick_unfold. cbv zeta.
  destruct (readings _ _) as [[[i' consumption] cands]|e] eqn:Hread;
    [|discriminate].
  apply readings_returned in Hread
    as (src & av & pr & _ & Hsrc & Hav & Hpr & Hcons & Hcands & ->).
  cbn [obsSourceOut obsActualValues obsProbabilities] in Hsrc, Hav, Hpr.
  apply candidates_returned in Hcands as (_ & _ & ->).
  destruct (0 <? len av)%Z eqn:Hpos; [|discriminate].
  destruct (pick av _) as [prediction|e] eqn:Hpick; [|discriminate].
  intros [= <-]. cbn [network rows].
  exists src, av, pr, consumption, prediction.
  repeat split; try assumption.
  - unfold pick in Hpick. destruct (randint_of _ _ _) as [k|e]; [|discriminate].
    now apply getitem_elem in Hpick.
  - rewrite leaked_xrange_len; [reflexivity|].
    intros ->. discriminate Hpos.
Qed.

Lemma tick_writes_last_index_witness :
  let w : World Replay.Net Replay.Tape :=
    mkWorld (Replay.start [Replay.reads [5] [10; 20; 30] [0.5; 0.9; 0.9]]%Q)
            [0.5]%Q [] 0 in
  ∃ sourceOut actualValues probabilities consumption prediction,
    getOutputData (network (tick "sensor" "SDRClassifierRegion" 7 w).1)
      "sensor" "sourceOut" = Return sourceOut ∧
    getOutputData (network (tick "sensor" "SDRClassifierRegion" 7 w).1)
      "SDRClassifierRegion" "actualValues" = Return actualValues ∧
    getOutputData (network (tick "sensor" "SDRClassifierRegion" 7 w).1)
      "SDRClassifierRegion" "probabilities" = Return probabilities ∧
    getitem sourceOut 0 = Return consumption ∧
    prediction ∈ actualValues ∧
    rows (tick "sensor" "SDRClassifierRegion" 7 w).1
    = rows w ++ [((len actualValues - 1)%Z, consumption, prediction)].
Proof.
  intros w.
  apply (tick_writes_last_index "sensor" "SDRClassifierRegion" 7 w).
  vm_compute. reflexivity.
Defined.

(** X7. A run that completes over [n] records has appended exactly [n] rows to
    those already written, called [network.run] [n] times and taken [n]
    outputs from the generator. *)
Theorem completed_run_accounting
    {Net G : Type} `{NetworkAPI Net} `{RandomSource G}
    (n : nat) (w w' : World Net G) :
  runNetworkFor (Z.of_nat n) w = (w', Return ()) →
  (∃ written, rows w' = rows w ++ written ∧ length written = n) ∧
  runCalls w' = runCalls w + n ∧
  generator w' = advance n (generator w).
Proof.
  intros Hrun.
  rewrite (runNetworkFor_completed _ _ _ Hrun) in Hrun. unfold runLoop in Hrun.
  assert (Hlen : length (xrange (Z.of_nat n)) = n)
    by (unfold xrange; now rewrite length_fmap, length_seq, Nat2Z.id).
  split; [|split].
  - apply loop_completed in Hrun as (written & Hw & Hl & _).
    exists written. split; [exact Hw | lia].
  - apply loop_completed in Hrun as (written & _ & _ & Hc). lia.
  - apply loop_generator in Hrun. now rewrite Hlen in Hrun.
Qed.

Lemma completed_run_accounting_witness :
  let w : World Replay.Net Replay.Tape :=
    mkWorld (Replay.start [Replay.reads [5] [10; 20; 30] [0.5; 0.9; 0.9];
                           Replay.reads [6] [10; 20] [0.3; 0.7]]%Q)
            [0.5; 0.9; 0.2]%Q [(9%Z, 1%Q, 1%Q)] 4 in
  let w' := (runNetworkFor (Z.of_nat 2) w).1 in
  (∃ written, rows w' = rows w ++ written ∧ length written = 2) ∧
  runCalls w' = runCalls w + 2 ∧
  generator w' = advance 2 (generator w).
Proof.
  intros w w'.
  apply (completed_run_accounting 2 w w'). vm_compute. reflexivity.
Defined.

(** X8. Whatever the outcome of a run, the rows already written are kept and
    rows are only appended; each appended row comes with a call of
    [network.run], at most one call has no row (the tick that raised), and
    there are no more calls than records. *)
Theorem run_appends_only
    {Net G : Type} `{NetworkAPI Net} `{RandomSource G}
    (numRecords : Z) (w w' : World Net G) (r : result ()) :
  runNetworkFor numRecords w = (w', r) →
  ∃ written calls,
    rows w' = rows w ++ written ∧
    runCalls w' = runCalls w + calls ∧
    length written ≤ calls ∧ calls ≤ S (length written) ∧
    calls ≤ Z.to_nat numRecords.
Proof.
  rewrite runNetworkFor_unfold.
  assert (Hnone : ∀ e, (w, Raise e) = (w', r) →
    ∃ written calls,
      rows w' = rows w ++ written ∧ runCalls w' = runCalls w + calls ∧
      length written ≤ calls ∧ calls ≤ S (length written) ∧
      calls ≤ Z.to_nat numRecords).
  { intros e [= <- <-]. exists [], 0. rewrite app_nil_r. simpl.
    repeat split; lia. }
  repeat (destruct (hasRegion (network w) _); [|apply Hnone]).
  unfold runLoop. intros Hloop.
  destruct (loop_append_only _ _ _ _ _ _ Hloop)
    as (written & calls & Hw & Hc & H1 & H2 & H3).
  exists written, calls. repeat split; try assumption.
  unfold xrange in H3. now rewrite length_fmap, length_seq in H3.
Qed.

Lemma run_appends_only_witness :
  let w : World Replay.Net Replay.Tape :=
    mkWorld (Replay.start [Replay.reads [5] [10; 20; 30] [0.5; 0.9; 0.9];
                           Replay.raises (Exception "StepError")]%Q)
            [0.5; 0.9]%Q [(9%Z, 1%Q, 1%Q)] 4 in
  ∃ written calls,
    rows (runNetworkFor 5 w).1 = rows w ++ written ∧
    runCalls (runNetworkFor 5 w).1 = runCalls w + calls ∧
    length written ≤ calls ∧ calls ≤ S (length written) ∧
    calls ≤ Z.to_nat 5.
Proof.
  intros w.
  apply (run_appends_only 5 w (runNetworkFor 5 w).1 (runNetworkFor 5 w).2).
  vm_compute. reflexivity.
Defined.

(** X9. [runNetwork] looks up four regions before the loop, two of which it
    never uses.  If one of the four is missing, it raises [KeyError] for
    the first missing one in the order of the lookups (the regions looked
    up before it were all found), and nothing is run or written. *)
Theorem missing_region_KeyError
    {Net G : Type} `{NetworkAPI Net} `{RandomSource G}
    (numRecords : Z) (w : World Net G)
    (found later : list string) (missing : string) :
  ["sensor"; "spatialPoolerRegion"; "temporalPoolerRegion";
   "SDRClassifierRegion"] = found ++ missing :: later →
  Forall (fun name => hasRegion (network w) name = true) found →
  hasRegion (network w) missing = false →
  runNetworkFor numRecords w = (w, Raise (KeyError missing)).
Proof.
  intros Horder Hfound Hmiss. rewrite runNetworkFor_unfold.
  destruct found as [|f1 [|f2 [|f3 [|f4 found]]]]; cbn [app] in Horder.
  - injection Horder as <- _. now rewrite Hmiss.
  - injection Horder as <- <- _.
    apply Forall_cons in Hfound as [H1 _]. now rewrite H1, Hmiss.
  - injection Horder as <- <- <- _.
    apply Forall_cons in Hfound as [H1 Hfound].
    apply Forall_cons in Hfound as [H2 _]. now rewrite H1, H2, Hmiss.
  - injection Horder as <- <- <- <- _.
    apply Forall_cons in Hfound as [H1 Hfound].
    apply Forall_cons in Hfound as [H2 Hfound].
    apply Forall_cons in Hfound as [H3 _]. now rewrite H1, H2, H3, Hmiss.
  - injection Horder as _ _ _ _ Hnil. destruct found; discriminate Hnil.
Qed.

(** ** The network that [createNetwork] builds *)

Module BuiltNetwork.
Import Engine EngineFacts.
#[local] Existing Instance B_bind.

(** [createNetwork] in closed form: from any state it returns a network
    with the four regions and the ten links below, in the order of the
    calls of [link]. *)
Lemma createNetwork_closed_form (getWidth : Encoder → Z) (ds : string)
    (sp tp cl : gmap string pyval) (net0 : Network) :
  ∃ net,
    createNetwork getWidth ds (mkBuild (mkModule sp tp cl) net0)
    = (mkBuild (mkModule (<["inputWidth" := PInt (getWidth createEncoder)]> sp)
                  tp cl) net,
       Return net) ∧
    dom (regions net)
    = {["sensor"; "spatialPoolerRegion"; "temporalPoolerRegion";
        "SDRClassifierRegion"]} ∧
    regions net !! "sensor"
    = Some (mkRegion "py.RecordSensor" {["verbosity" := PInt _VERBOSITY]} ∅
              (Some createEncoder) (Some ds)) ∧
    regions net !! "spatialPoolerRegion"
    = Some (mkRegion "py.SPRegion"
              (<["inputWidth" := PInt (getWidth createEncoder)]> sp)
              (<["anomalyMode" := PBool false]>
                 (<["learningMode" := PBool true]> ∅))
              None None) ∧
    regions net !! "temporalPoolerRegion"
    = Some (mkRegion "py.TPRegion" tp
              (<["anomalyMode" := PBool true]>
                 (<["inferenceMode" := PBool true]>
                    (<["learningMode" := PBool true]>
                       (<["topDownMode" := PBool true]> ∅))))
              None None) ∧
    regions net !! "SDRClassifierRegion"
    = Some (mkRegion "py.SDRClassifierRegion" cl
              (<["learningMode" := PBool true]>
                 (<["inferenceMode" := PBool true]> ∅))
              None None) ∧
    links net
    = [ mkLink "sensor" "spatialPoolerRegion" "UniformLink" emptyStr
          emptyStr emptyStr;
        mkLink "sensor" "spatialPoolerRegion" "UniformLink" emptyStr
          "resetOut" "resetIn";
        mkLink "spatialPoolerRegion" "sensor" "UniformLink" emptyStr
          "spatialTopDownOut" "spatialTopDownIn";
        mkLink "spatialPoolerRegion" "sensor" "UniformLink" emptyStr
          "temporalTopDownOut" "temporalTopDownIn";
        mkLink "spatialPoolerRegion" "temporalPoolerRegion" "UniformLink"
          emptyStr emptyStr emptyStr;
        mkLink "temporalPoolerRegion" "spatialPoolerRegion" "UniformLink"
          emptyStr "topDownOut" "topDownIn";
        mkLink "temporalPoolerRegion" "SDRClassifierRegion" "UniformLink"
          emptyStr "bottomUpOut" "bottomUpIn";
        mkLink "sensor" "SDRClassifierRegion" "UniformLink" emptyStr
          "sourceOut" "categoryIn";
        mkLink "temporalPoolerRegion" "SDRClassifierRegion" "UniformLink"
          emptyStr "predictedActiveCells" "predictedActiveCells";
        mkLink "sensor" "SDRClassifierRegion" "UniformLink" emptyStr
          "sequenceIdOut" "sequenceIdIn" ].
Proof.
  unfold createNetwork.
  do 30 step.
  eexists. split; [reflexivity|].
  cbn [network regions links app].
  split; [rewrite !dom_insert_L, dom_empty_L; set_solver|].
  repeat split; lookup_region.
Qed.

(** [createNetwork] reads the state it starts from only through the
    module dictionaries, and [SP_PARAMS] only after the assignment to
    ["inputWidth"]. *)
Lemma createNetwork_same_input (getWidth : Encoder → Z) (ds : string)
    (sp sp' tp cl : gmap string pyval) (net0 net0' : Network) :
  <["inputWidth" := PInt (getWidth createEncoder)]> sp
  = <["inputWidth" := PInt (getWidth createEncoder)]> sp' →
  createNetwork getWidth ds (mkBuild (mkModule sp tp cl) net0)
  = createNetwork getWidth ds (mkBuild (mkModule sp' tp cl) net0').
Proof.
  intros Heq. unfold createNetwork.
  do 60 step.
  rewrite Heq. reflexivity.
Qed.

End BuiltNetwork.

(** X12. The graph [createNetwork] assembles, whatever the data source, the
    encoder width and the state it starts from (a network of a former call
    is discarded): exactly the four regions and the ten links, all of type
    [UniformLink], every link between two of the four regions.  The calls
    are in an order that raises neither [DuplicateNameError] nor
    [UnknownRegionError]: no name is registered twice, and every link is
    made after both of its regions were added.  (What the engine checks
    of ports, widths and parameters is not modelled; nothing is stated
    about it.) *)
Theorem createNetwork_graph_well_formed
    (getWidth : Engine.Encoder → Z) (ds : string) (s : Engine.Build) :
  let outcome := Engine.createNetwork getWidth ds s in
  let net := Engine.network outcome.1 in
  outcome.2 ≠ Raise (Exception "DuplicateNameError") ∧
  outcome.2 ≠ Raise (Exception "UnknownRegionError") ∧
  dom (Engine.regions net)
  = {["sensor"; "spatialPoolerRegion"; "temporalPoolerRegion";
      "SDRClassifierRegion"]} ∧
  length (Engine.links net) = 10 ∧
  Forall (fun l => Engine.srcName l ∈ dom (Engine.regions net) ∧
                   Engine.destName l ∈ dom (Engine.regions net) ∧
                   Engine.linkType l = "UniformLink")
         (Engine.links net).
Proof.
  destruct s as [[sp tp cl] net0].
  destruct (BuiltNetwork.createNetwork_closed_form getWidth ds sp tp cl net0)
    as (net & Hrun & Hdom & _ & _ & _ & _ & Hlinks).
  cbv zeta. rewrite Hrun. cbn [fst snd Engine.network].
  split; [discriminate|]. split; [discriminate|]. split; [exact Hdom|].
  rewrite Hlinks, Hdom. split; [reflexivity|].
  repeat (apply Forall_cons; split;
          [cbn; split; [set_solver | split; [set_solver | reflexivity]]|]).
  apply Forall_nil_2.
Qed.

(** X13. The regions of the built network: each is created from the module
    dictionary meant for it as it stands at the call ([SP_PARAMS] with the
    new ["inputWidth"]), the sensor holds the encoder of [createEncoder]
    and the data source, and the modes set with [setParameter] are all
    kept: learning on in the three learning regions, inference on in the
    temporal pooler and the classifier, [anomalyMode] off in the spatial
    pooler and on in the temporal pooler, [topDownMode] on. *)
Theorem createNetwork_regions
    (getWidth : Engine.Encoder → Z) (ds : string) (s : Engine.Build) :
  let net := Engine.network (Engine.createNetwork getWidth ds s).1 in
  Engine.regions net !! "sensor"
  = Some (Engine.mkRegion "py.RecordSensor"
            {["verbosity" := Engine.PInt Engine._VERBOSITY]} ∅
            (Some Engine.createEncoder) (Some ds)) ∧
  Engine.regions net !! "spatialPoolerRegion"
  = Some (Engine.mkRegion "py.SPRegion"
            (<["inputWidth" := Engine.PInt (getWidth Engine.createEncoder)]>
               (Engine.SP_PARAMS (Engine.globals s)))
            (<["anomalyMode" := Engine.PBool false]>
               (<["learningMode" := Engine.PBool true]> ∅))
            None None) ∧
  Engine.regions net !! "temporalPoolerRegion"
  = Some (Engine.mkRegion "py.TPRegion" (Engine.TP_PARAMS (Engine.globals s))
            (<["anomalyMode" := Engine.PBool true]>
               (<["inferenceMode" := Engine.PBool true]>
                  (<["learningMode" := Engine.PBool true]>
                     (<["topDownMode" := Engine.PBool true]> ∅))))
            None None) ∧
  Engine.regions net !! "SDRClassifierRegion"
  = Some (Engine.mkRegion "py.SDRClassifierRegion"
            (Engine.CL_PARAMS (Engine.globals s))
            (<["learningMode" := Engine.PBool true]>
               (<["inferenceMode" := Engine.PBool true]> ∅))
            None None).
Proof.
  destruct s as [[sp tp cl] net0].
  destruct (BuiltNetwork.createNetwork_closed_form getWidth ds sp tp cl net0)
    as (net & Hrun & _ & Hsensor & Hsp & Htp & Hcl & _).
  cbv zeta. rewrite Hrun. cbn [fst Engine.network Engine.globals
    Engine.SP_PARAMS Engine.TP_PARAMS Engine.CL_PARAMS].
  auto.
Qed.

(** X14. Calling [createNetwork] again from the state a call leaves gives the
    same result and the same state: the assignment to [SP_PARAMS] does not
    accumulate, and nothing of the former network survives. *)
Theorem createNetwork_twice
    (getWidth : Engine.Encoder → Z) (ds : string) (s : Engine.Build) :
  Engine.createNetwork getWidth ds (Engine.createNetwork getWidth ds s).1
  = Engine.createNetwork getWidth ds s.
Proof.
  destruct s as [[sp tp cl] net0].
  destruct (BuiltNetwork.createNetwork_closed_form getWidth ds sp tp cl net0)
    as (net & Hrun & _).
  rewrite Hrun at 1. cbn [fst].
  apply BuiltNetwork.createNetwork_same_input, insert_insert_eq.
Qed.

(** X15. [runNetwork] finds its four regions in a network built by
    [createNetwork]: on such a network it goes straight to the loop over
    the regions ["sensor"] and ["SDRClassifierRegion"], whatever the
    engine's [run] and [getOutputData] do. *)
Theorem runNetwork_finds_built_regions
    {G : Type} `{RandomSource G}
    (engine_run : Engine.Network → Z → Engine.Network * result ())
    (engine_getOutputData : Engine.Network → string → string → result (list Q))
    (getWidth : Engine.Encoder → Z) (ds : string) (s : Engine.Build)
    (numRecords : Z) (g : G) (written : list Row) (calls : nat) :
  let api := Engine.engineAPI engine_run engine_getOutputData in
  let net := Engine.network (Engine.createNetwork getWidth ds s).1 in
  @runNetworkFor _ _ api _ numRecords (mkWorld net g written calls)
  = @runLoop _ _ api _ "sensor" "SDRClassifierRegion" numRecords
      (mkWorld net g written calls).
Proof.
  destruct s as [[sp tp cl] net0].
  destruct (BuiltNetwork.createNetwork_closed_form getWidth ds sp tp cl net0)
    as (net & Hrun & _ & Hsensor & Hsp & Htp & Hcl & _).
  cbv zeta. rewrite Hrun. cbn [fst Engine.network].
  rewrite runNetworkFor_unfold.
  cbn [hasRegion Engine.engineAPI network].
  rewrite Hsensor, Hsp, Htp, Hcl.
  rewrite !bool_decide_eq_true_2 by (eexists; reflexivity).
  reflexivity.
Qed.

Lemma missing_region_KeyError_witness :
  let api := Engine.engineAPI (fun net _ => (net, Return ()))
               (fun _ _ _ => Return []) in
  let w : World Engine.Network Replay.Tape :=
    mkWorld (Engine.mkNetwork
               {["sensor" := Engine.mkRegion "py.RecordSensor" ∅ ∅ None None]}
               []) [] [] 0 in
  @runNetworkFor _ _ api _ 5 w = (w, Raise (KeyError "spatialPoolerRegion")).
Proof.
  intros api w.
  apply (@missing_region_KeyError _ _ api _ 5 w ["sensor"]
           ["temporalPoolerRegion"; "SDRClassifierRegion"]
           "spatialPoolerRegion");
    [reflexivity | repeat constructor | vm_compute; reflexivity].
Defined.

(** X10. A tick completes only if [network.run(1)] returns, the sensor
    output is not empty, and the classifier lists at least one value and
    no fewer probabilities than values. *)
Theorem tick_completes_only_if
    {Net G : Type} `{NetworkAPI Net} `{RandomSource G}
    (s c : string) (i : Z) (w : World Net G) :
  (tick s c i w).2 = Return () →
  ∃ sourceOut actualValues probabilities,
    (run (network w) 1).2 = Return () ∧
    getOutputData (run (network w) 1).1 s "sourceOut" = Return sourceOut ∧
    getOutputData (run (network w) 1).1 c "actualValues" = Return actualValues ∧
    getOutputData (run (network w) 1).1 c "probabilities" = Return probabilities ∧
    sourceOut ≠ [] ∧ actualValues ≠ [] ∧
    length actualValues ≤ length probabilities.
Proof.
  rewrite tick_unfold. cbv zeta.
  destruct (readings _ _) as [[[i' consumption] cands]|e] eqn:Hread;
    [|discriminate].
  apply readings_returned in Hread
    as (src & av & pr & Hrun & Hsrc & Hav & Hpr & Hcons & Hcands & ->).
  cbn [obsRun obsSourceOut obsActualValues obsProbabilities]
    in Hrun, Hsrc, Hav, Hpr.
  apply candidates_returned in Hcands as (_ & Hle & ->).
  destruct (0 <? len av)%Z eqn:Hpos; [|discriminate].
  intros _. exists src, av, pr. repeat split; try assumption.
  - intros ->. discriminate Hcons.
  - intros ->. discriminate Hpos.
Qed.

Lemma tick_completes_only_if_witness :
  let w : World Replay.Net Replay.Tape :=
    mkWorld (Replay.start [Replay.reads [5] [10; 20] [0.3; 0.7; 0]]%Q)
            [0.5]%Q [] 0 in
  ∃ sourceOut actualValues probabilities,
    (run (network w) 1).2 = Return () ∧
    getOutputData (run (network w) 1).1 "sensor" "sourceOut"
    = Return sourceOut ∧
    getOutputData (run (network w) 1).1 "SDRClassifierRegion" "actualValues"
    = Return actualValues ∧
    getOutputData (run (network w) 1).1 "SDRClassifierRegion" "probabilities"
    = Return probabilities ∧
    sourceOut ≠ [] ∧ actualValues ≠ [] ∧
    length actualValues ≤ length probabilities.
Proof.
  intros w.
  apply (tick_completes_only_if "sensor" "SDRClassifierRegion" 7 w).
  vm_compute. reflexivity.
Defined.

(** X11. [runNetwork] itself: when it completes it has appended exactly 2000
    rows to those already written and called [network.run] 2000 times. *)
Theorem runNetwork_writes_2000_rows
    {Net G : Type} `{NetworkAPI Net} `{RandomSource G}
    (w w' : World Net G) :
  runNetwork w = (w', Return ()) →
  (∃ written, rows w' = rows w ++ written ∧ length written = 2000) ∧
  runCalls w' = runCalls w + 2000.
Proof.
  unfold runNetwork, _NUM_RECORDS. intros Hrun.
  rewrite (runNetworkFor_completed _ _ _ Hrun) in Hrun. unfold runLoop in Hrun.
  apply loop_completed in Hrun as (written & Hw & Hl & Hc).
  assert (Hlen : length (xrange 2000) = 2000)
    by (unfold xrange; now rewrite length_fmap, length_seq).
  rewrite Hlen in Hl, Hc. split; [now exists written | exact Hc].
Qed.

Lemma runNetwork_writes_2000_rows_witness :
  let w : World Replay.Net Replay.Tape :=
    mkWorld (Replay.start
               (replicate 2000 (Replay.reads [5] [10; 20] [0.5; 0.9])%Q))
            [] [] 0 in
  (∃ written, rows (runNetwork w).1 = rows w ++ written ∧
              length written = 2000) ∧
  runCalls (runNetwork w).1 = runCalls w + 2000.
Proof.
  intros w.
  apply (runNetwork_writes_2000_rows w (runNetwork w).1).
  vm_compute. reflexivity.
Defined.
